(** * A shallow embedding of [main.py]: purchase-order sheet merging

    The development follows the layout of the program:
    - [Text]            Python [str] values and the string methods the program calls;
    - [Builtins]        the interpreter services the program relies on
                        ([float], [round], [str.lower], the [re] character classes);
    - [Re]              the two regular expressions, run by a small backtracking matcher;
    - [OrderProcessor]  [safe_float], [create_header_map], [map_row_to_std],
                        [normalize_unit], [read_excel_smart], [parse_file_to_sections];
    - [WorkerThread]    the export loop of [run] with its de-duplication set, the
                        test that saves the workbook, [apply_outer_border];
    - [CPython]         a concrete instance of [Builtins] (binary64 floats);
    - [MainWindow]      the list of files: [add_files], [remove_file], [clear_list];
    - [Sheets], [Runs]  concrete sheets, and the program evaluated on them.

    A Python [str] is a list of code points; a literal is written [u "..."], the
    UTF-8 decoding of the bytes between the quotes. *)

From Stdlib Require Import ZArith NArith String Ascii List Bool Lia.
From Stdlib Require Import Floats.SpecFloat.
From stdpp Require Import base option list countable gmap.

Set Default Proof Using "Type".

(* ===================================================================== *)
(** ** Python strings *)
(* ===================================================================== *)

Module Text.

Definition char := N.
Definition str := list N.

(** UTF-8 decoding of a byte sequence: [need] continuation bytes are still
    expected for the code point accumulated in [acc]. *)
Fixpoint utf8_decode (bs : list N) (need : nat) (acc : N) : str :=
  match bs with
  | [] => []
  | b :: bs' =>
      match need with
      | O =>
          if (b <? 128)%N then b :: utf8_decode bs' 0 0%N
          else if (b <? 224)%N then utf8_decode bs' 1 (b - 192)%N
          else if (b <? 240)%N then utf8_decode bs' 2 (b - 224)%N
          else utf8_decode bs' 3 (b - 240)%N
      | S O => (acc * 64 + (b - 128))%N :: utf8_decode bs' 0 0%N
      | S n => utf8_decode bs' n (acc * 64 + (b - 128))%N
      end
  end.

Definition bytes_of (s : string) : list N :=
  List.map (fun b => N.of_nat (nat_of_ascii b)) (list_ascii_of_string s).

(** A string literal of the program. *)
Definition u (s : string) : str := utf8_decode (bytes_of s) 0 0%N.

(** [s.startswith(p)] *)
Fixpoint startswith (p s : str) : bool :=
  match p, s with
  | [], _ => true
  | _ :: _, [] => false
  | c :: p', d :: s' => (c =? d)%N && startswith p' s'
  end.

(** [s.endswith(p)] *)
Definition endswith (s p : str) : bool := startswith (rev p) (rev s).

(** [needle in hay] on two strings *)
Fixpoint contains (needle hay : str) : bool :=
  startswith needle hay ||
  match hay with
  | [] => false
  | _ :: hay' => contains needle hay'
  end.

(** [sep.join(parts)] *)
Fixpoint join (sep : str) (parts : list str) : str :=
  match parts with
  | [] => []
  | [p] => p
  | p :: ps => p ++ sep ++ join sep ps
  end.

(** [s.replace(c, "")] for a one-character [c] *)
Definition remove_char (c : char) (s : str) : str :=
  List.filter (fun d => negb (d =? c)%N) s.

Fixpoint lstrip_with (sp : char -> bool) (s : str) : str :=
  match s with
  | [] => []
  | c :: s' => if sp c then lstrip_with sp s' else s
  end.

(** [s.strip()], for the whitespace predicate [sp] *)
Definition strip_with (sp : char -> bool) (s : str) : str :=
  rev (lstrip_with sp (rev (lstrip_with sp s))).

(** [x in xs] for a string and a list of strings *)
Definition str_in (x : str) (xs : list str) : bool := bool_decide (x ∈ xs).

(** [any(k in s for k in keys)] *)
Definition any_in (keys : list str) (s : str) : bool :=
  existsb (fun k => contains k s) keys.

(** [str(z)] for a Python [int] *)
Fixpoint digits_of (fuel : nat) (n : N) (acc : str) : str :=
  match fuel with
  | O => acc
  | S fuel' =>
      let acc' := (48 + n mod 10)%N :: acc in
      if (n <? 10)%N then acc' else digits_of fuel' (n / 10)%N acc'
  end.

Definition str_of_N (n : N) : str := digits_of (S (N.to_nat (N.log2 n))) n [].

Definition str_of_Z (z : Z) : str :=
  match z with
  | Z0 => [48%N]
  | Zpos p => str_of_N (Npos p)
  | Zneg p => 45%N :: str_of_N (Npos p)
  end.

End Text.
Import Text.

Arguments u s%_string : simpl never.

(* ===================================================================== *)
(** ** Interpreter services *)
(* ===================================================================== *)

(** What the program takes from the Python runtime without defining it.
    Every general theorem below holds for any implementation of this
    interface; [CPython.builtins] is the one used for concrete runs. *)
Class Builtins := {
  (** the type [float] *)
  float : Type;
  float_eq_dec :: EqDecision float;
  float_countable :: Countable float;
  (** [0.0] *)
  fzero : float;
  (** [float(s)]; [None] stands for the [ValueError] it raises *)
  float_of_str : str -> option float;
  (** [x * y] *)
  fmul : float -> float -> float;
  (** [x.is_integer()] *)
  is_integer : float -> bool;
  (** [int(x)], called by the program only where [x.is_integer()] *)
  int_of_float : float -> Z;
  (** [round(x, 2)] *)
  round2 : float -> float;
  (** [str(x)] *)
  str_of_float : float -> str;
  (** [c.isspace()], the characters removed by [str.strip] *)
  isspace : char -> bool;
  (** [s.lower()] *)
  lower : str -> str;
  (** the class [\d] of [re] *)
  re_digit : char -> bool;
  (** [re_ieq c d]: under [re.I] the pattern letter [c] matches [d] *)
  re_ieq : char -> char -> bool
}.

(* ===================================================================== *)
(** ** Regular expressions *)
(* ===================================================================== *)

Module Re.

(** A pattern is a sequence of greedy bounded repetitions of one-character
    classes: [accepts{rmin,rmax}]. Both patterns of the program have this
    shape. *)
Record atom := Atom { accepts : char -> bool; rmin : nat; rmax : nat }.

(** Number of leading characters of [s] in the class [p], at most [limit]. *)
Fixpoint run_length (p : char -> bool) (limit : nat) (s : str) : nat :=
  match limit, s with
  | S limit', c :: s' => if p c then S (run_length p limit' s') else O
  | _, _ => O
  end.

(** Backtracking over one repetition: try [j], [j-1], ..., [lo] characters
    and hand the remainder to [rest]. The result is the matched length. *)
Fixpoint greedy (rest : str -> option nat) (s : str) (lo j : nat) : option nat :=
  if j <? lo then None
  else match rest (drop j s) with
       | Some n => Some (j + n)
       | None => match j with
                 | O => None
                 | S j' => greedy rest s lo j'
                 end
       end.

(** Match [pat] at the start of [s]. *)
Fixpoint match_here (pat : list atom) (s : str) : option nat :=
  match pat with
  | [] => Some O
  | a :: pat' =>
      greedy (match_here pat') s (rmin a) (run_length (accepts a) (rmax a) s)
  end.

(** [pattern.search(s)]: the leftmost match, as [match.group(0)]. *)
Fixpoint search (pat : list atom) (s : str) : option str :=
  match match_here pat s with
  | Some n => Some (take n s)
  | None => match s with
            | [] => None
            | _ :: s' => search pat s'
            end
  end.

Definition one (p : char -> bool) : atom := Atom p 1 1.
Definition exactly (c : char) : atom := one (N.eqb c).

End Re.

(* ===================================================================== *)
(** ** Configuration and tool functions *)
(* ===================================================================== *)

(** A Python value as it occurs in the cells of a record: a [str], an [int]
    or a [float]. *)
Inductive value `{Builtins} :=
  | VStr (s : str)
  | VInt (z : Z)
  | VFloat (x : float).

(** The body of a [try] either returns or raises. *)
Inductive outcome (A : Type) :=
  | Return (a : A)
  | Raise.
Arguments Return {A} a.
Arguments Raise {A}.

(** [try: body  except: return fallback] *)
Definition try_except {A} (body : outcome A) (fallback : A) : A :=
  match body with
  | Return a => a
  | Raise => fallback
  end.

(** [pd.DataFrame] as the readers deliver it ([header=None, dtype=str],
    [fillna("")]): [columns] is [len(df.columns)], [cells] the rows in
    order. *)
Record DataFrame := { columns : nat; cells : list (list str) }.

(** [pd.DataFrame()] *)
Definition empty_frame : DataFrame := {| columns := 0; cells := [] |}.

(** [df.empty]: one of the two axes has length zero. *)
Definition df_empty (df : DataFrame) : bool :=
  match columns df, cells df with
  | O, _ => true
  | _, [] => true
  | _, _ => false
  end.

(** The cell of column [c] in a row of the frame. *)
Definition cell_at (row : list str) (c : nat) : str := default [] (row !! c).

(** [enumerate(xs)] *)
Definition enumerate {A} (xs : list A) : list (nat * A) :=
  zip (seq 0 (length xs)) xs.

Section Program.
Context `{B : Builtins}.

#[export] Instance value_eq_dec : EqDecision value.
Proof. solve_decision. Defined.

Definition value_encode (v : value) : str + Z + float :=
  match v with
  | VStr s => inl (inl s)
  | VInt z => inl (inr z)
  | VFloat x => inr x
  end.

Definition value_decode (e : str + Z + float) : value :=
  match e with
  | inl (inl s) => VStr s
  | inl (inr z) => VInt z
  | inr x => VFloat x
  end.

#[export] Instance value_countable : Countable value.
Proof.
  apply (inj_countable' value_encode value_decode).
  intros []; reflexivity.
Defined.

(** [s.strip()] *)
Definition strip : str -> str := strip_with isspace.

(** [str(v)] *)
Definition py_str (v : value) : str :=
  match v with
  | VStr s => s
  | VInt z => str_of_Z z
  | VFloat x => str_of_float x
  end.

Definition OUTPUT_FILENAME_PREFIX : str := u "合并工单_".

Definition UNIT_MAP : list (str * str) :=
  [ (u "個", u "个"); (u "個/pcs", u "个"); (u "臺", u "台"); (u "臺/台", u "台");
    (u "公斤", u "kg"); (u "千克", u "kg"); (u "g", u "g"); (u "公斤/公斤", u "kg") ].

(** The body of the [try] in [safe_float]; the argument is [None] or a
    value. *)
Definition safe_float_try (x : option value) : outcome float :=
  match x with
  | None => Return fzero
  | Some v =>
      if bool_decide (strip (py_str v) = []) then Return fzero
      else
        let s := remove_char 44%N (strip (py_str v)) in
        match float_of_str s with
        | Some f => Return f
        | None => Raise
        end
  end.

Definition safe_float (x : option value) : float :=
  try_except (safe_float_try x) fzero.

(* =================================================================== *)
(** ** OrderProcessor *)
(* =================================================================== *)

Definition standard_columns : list str :=
  [ u "序号"; u "品名"; u "规格/图号"; u "单位"; u "数量"; u "单价"; u "金额";
    u "备注/本体单重" ].

(** The dictionary literal, in its insertion order. *)
Definition mapping_keywords : list (str * list str) :=
  [ (u "品名", [u "品名"; u "物料名称"; u "product name"; u "material name"]);
    (u "规格/图号", [u "规格"; u "图号"; u "物料规格"; u "spec"; u "specification"; u "型号"]);
    (u "单位", [u "单位"; u "unit"; u "uom"; u "采购单位"]);
    (u "数量", [u "数量"; u "qty"; u "quantity"; u "采购数量"; u "报价数量"]);
    (u "单价", [u "单价"; u "price"; u "unit price"; u "报价单价"]);
    (u "金额", [u "金额"; u "total"; u "amount"]);
    (u "备注/本体单重", [u "备注"; u "remarks"; u "本体单重"; u "item no. remarks"; u "询价说明"]);
    (u "询价人", [u "询价人"; u "inquirer"]);
    (u "代购厂商", [u "代购厂商"; u "purchasing agent"; u "代购"]) ].

(** The class [[A-Z]] under [re.I]. *)
Definition upper_letter_i (d : char) : bool :=
  existsb (fun c => re_ieq c d) (N.of_nat <$> seq 65 26).

(** [re.compile(r'XIDP-[A-Z]?\d{10,12}', re.I)] *)
Definition order_no_pattern : list Re.atom :=
  [ Re.one (re_ieq 88%N); Re.one (re_ieq 73%N); Re.one (re_ieq 68%N);
    Re.one (re_ieq 80%N); Re.exactly 45%N;
    Re.Atom upper_letter_i 0 1; Re.Atom re_digit 10 12 ].

Definition date_sep (c : char) : bool := (c =? 45)%N || (c =? 47)%N.

(** [r'(\d{4}[-/]\d{1,2}[-/]\d{1,2})'] *)
Definition date_pattern : list Re.atom :=
  [ Re.Atom re_digit 4 4; Re.one date_sep; Re.Atom re_digit 1 2;
    Re.one date_sep; Re.Atom re_digit 1 2 ].

(** The inner loop of [create_header_map] for one dictionary entry. *)
Definition claim_field (low_val : str) (idx : nat)
    (h_map : gmap str nat) (entry : str * list str) : gmap str nat :=
  if bool_decide (h_map !! entry.1 = None) && any_in entry.2 low_val
  then <[entry.1 := idx]> h_map
  else h_map.

(** The outer loop body of [create_header_map] for one cell. *)
Definition scan_cell (h_map : gmap str nat) (cell : nat * str) : gmap str nat :=
  foldl (claim_field (lower cell.2) cell.1) h_map mapping_keywords.

Definition create_header_map (row_values : list str) : gmap str nat :=
  foldl scan_cell ∅ (enumerate row_values).

Fixpoint normalize_unit_in (table : list (str * str)) (unit : str) : str :=
  match table with
  | [] => unit
  | (k, v) :: table' => if contains k unit then v else normalize_unit_in table' unit
  end.

Definition normalize_unit (unit : str) : str := normalize_unit_in UNIT_MAP unit.

(** The result dictionary holds the text of the mapped cells. *)
Definition map_row_to_std (row_values : list str) (h_map : gmap str nat)
    : gmap str str :=
  map_imap
    (fun k idx =>
       match row_values !! idx with
       | Some val => Some (if bool_decide (k = u "单位") then normalize_unit val else val)
       | None => None
       end)
    h_map.

End Program.

(** The two readers of pandas, with [header=None, dtype=str] and
    [.fillna("")] applied; [Raise] is any exception of the call. *)
Record Pandas := {
  read_csv : str -> str -> outcome DataFrame;
  read_excel : str -> outcome DataFrame
}.

Section Loader.
Context (pd : Pandas).

Definition csv_encodings : list str :=
  [u "utf-8"; u "gbk"; u "gb18030"; u "utf-8-sig"].

(** The [for enc in ...] loop: the first encoding that reads is returned,
    a failing one is skipped. [None]: the loop ran to its end. *)
Fixpoint read_csv_any (file_path : str) (encs : list str) : option DataFrame :=
  match encs with
  | [] => None
  | enc :: encs' =>
      match read_csv pd file_path enc with
      | Return df => Some df
      | Raise => read_csv_any file_path encs'
      end
  end.

(** The body of the outer [try]. *)
Definition read_excel_smart_try (file_path : str) : outcome DataFrame :=
  match (if endswith file_path (u ".csv")
         then read_csv_any file_path csv_encodings else None) with
  | Some df => Return df
  | None => read_excel pd file_path
  end.

Definition read_excel_smart (file_path : str) : DataFrame :=
  try_except (read_excel_smart_try file_path) empty_frame.

End Loader.

Section Scanner.
Context `{B : Builtins}.

(** A section dictionary of [parse_file_to_sections]; [data_rows], a frame
    over [standard_columns], is the list of its rows. *)
Record OrderSection := {
  order_no : str;
  date : str;
  info : str;
  header_map : option (gmap str nat);
  data_rows : list (gmap str value)
}.

(** The local variables of the main loop. *)
Record ScanState := {
  sections : list OrderSection;
  current_section : option OrderSection;
  scan_header_map : option (gmap str nat)
}.

Definition UNKNOWN_ID : str := u "未知单号".

(** [" ".join([str(v) for v in df.iloc[r]])] *)
Definition raw_row_str (df : DataFrame) (row : list str) : str :=
  join (u " ") (cell_at row <$> seq 0 (columns df)).

(** [[str(df.iat[r, c]).strip() for c in range(len(df.columns))]] *)
Definition stripped_row (df : DataFrame) (row : list str) : list str :=
  (fun c => strip (cell_at row c)) <$> seq 0 (columns df).

(** The first loop: the first row with an order number gives [global_id]. *)
Fixpoint find_global_id (row_strs : list str) : str :=
  match row_strs with
  | [] => UNKNOWN_ID
  | row_str :: rest =>
      match Re.search order_no_pattern row_str with
      | Some tok => tok
      | None => find_global_id rest
      end
  end.

(** The header probe of the main loop. *)
Definition is_header_row (row_str : str) : bool :=
  any_in [u "品名"; u "物料名称"; u "规格"] row_str
  && any_in [u "数量"; u "单价"] row_str.

(** [if header_map:] is false for [None] and for the empty dictionary. *)
Definition truthy_map (h : option (gmap str nat)) : bool :=
  match h with
  | Some m => negb (bool_decide (m = ∅))
  | None => false
  end.

Definition HEADER_LABELS : list str :=
  [u "品名"; u "物料名称"; u "Material Name"; u "物料名称(品名)"].

Definition EMPTY_MARKS : list str :=
  [u "无"; u "無"; u "none"; u "null"; u "-"; u "nan"].

(** [for empty in ...: if s.lower() == empty: s = ''] *)
Definition blank_marks (s : str) : str :=
  foldl (fun a empty => if bool_decide (lower a = empty) then [] else a) s EMPTY_MARKS.

Definition inquiry_info (item_data : gmap str str) : str :=
  let agent := blank_marks (strip (default [] (item_data !! u "代购厂商"))) in
  let inquirer := blank_marks (strip (default [] (item_data !! u "询价人"))) in
  match List.filter (fun p => negb (bool_decide (p = []))) [agent; inquirer] with
  | [] => u "工单详情"
  | parts => join (u "，") parts
  end.

(** The three assignments to [item_data] and the comprehension over
    [standard_columns]. *)
Definition item_record (item_data : gmap str str) : gmap str value :=
  let qty := safe_float (VStr <$> item_data !! u "数量") in
  let prc := safe_float (VStr <$> item_data !! u "单价") in
  let item_data1 :=
    <[u "数量" := if is_integer qty then VInt (int_of_float qty) else VFloat qty]>
      (VStr <$> item_data) in
  let item_data2 := <[u "单价" := VFloat (round2 prc)]> item_data1 in
  let item_data3 := <[u "金额" := VFloat (round2 (fmul qty prc))]> item_data2 in
  list_to_map ((fun col => (col, default (VStr []) (item_data3 !! col))) <$> standard_columns).

Definition new_section (id day : str) (h : option (gmap str nat)) : OrderSection :=
  {| order_no := id; date := day; info := []; header_map := h; data_rows := [] |}.

Definition with_header_map (h : gmap str nat) (s : OrderSection) : OrderSection :=
  {| order_no := order_no s; date := date s; info := info s;
     header_map := Some h; data_rows := data_rows s |}.

(** Append [cur] to [secs] unless its frame is empty. *)
Definition emit_section (secs : list OrderSection) (cur : option OrderSection)
    : list OrderSection :=
  match cur with
  | Some s => if bool_decide (data_rows s = []) then secs else secs ++ [s]
  | None => secs
  end.

(** The order-number test of a row that is not a header. *)
Definition detect_order (st : ScanState) (row_str : str) : ScanState :=
  match Re.search order_no_pattern row_str with
  | Some found_id =>
      if negb (bool_decide (found_id = []))
         && match current_section st with
            | None => true
            | Some cur => bool_decide (found_id ≠ order_no cur)
            end
      then {| sections := emit_section (sections st) (current_section st);
              current_section :=
                Some (new_section found_id
                        (default [] (Re.search date_pattern row_str))
                        (scan_header_map st));
              scan_header_map := scan_header_map st |}
      else st
  | None => st
  end.

(** The [if header_map:] block. *)
Definition collect_row (global_id : str) (st : ScanState) (row_values : list str)
    : ScanState :=
  match scan_header_map st with
  | Some h =>
      if truthy_map (Some h) then
        let item_data := map_row_to_std row_values h in
        let p_name := default [] (item_data !! u "品名") in
        if negb (bool_decide (p_name = [])) && negb (str_in p_name HEADER_LABELS) then
          let cur := default (new_section global_id [] (Some h)) (current_section st) in
          let info' := if bool_decide (info cur = []) then inquiry_info item_data
                       else info cur in
          {| sections := sections st;
             current_section :=
               Some {| order_no := order_no cur; date := date cur; info := info';
                       header_map := header_map cur;
                       data_rows := data_rows cur ++ [item_record item_data] |};
             scan_header_map := scan_header_map st |}
        else st
      else st
  | None => st
  end.

(** One iteration of the main loop. *)
Definition scan_row (global_id : str) (st : ScanState) (row_values : list str)
    : ScanState :=
  let row_str := join (u " ") row_values in
  if is_header_row row_str then
    let h := create_header_map row_values in
    {| sections := sections st;
       current_section := with_header_map h <$> current_section st;
       scan_header_map := Some h |}
  else collect_row global_id (detect_order st row_str) row_values.

Definition initial_state : ScanState :=
  {| sections := []; current_section := None; scan_header_map := None |}.

(** The function after the frame is loaded. *)
Definition parse_frame (df : DataFrame) : list OrderSection :=
  if df_empty df then []
  else
    let global_id := find_global_id (raw_row_str df <$> cells df) in
    let st := foldl (scan_row global_id) initial_state (stripped_row df <$> cells df) in
    emit_section (sections st) (current_section st).

Definition parse_file_to_sections (pd : Pandas) (file_path : str) : list OrderSection :=
  parse_frame (read_excel_smart pd file_path).

End Scanner.

(* ===================================================================== *)
(** ** WorkerThread: the export loop of [run] *)
(* ===================================================================== *)

Section WorkerThread.
Context `{B : Builtins}.

(** A row written to the worksheet: the title row, the information row of
    a section, or an item row with the cells of [standard_columns]. *)
Inductive sheet_row :=
  | TitleRow (names : list str)
  | InfoRow (day inf id : str)
  | ItemRow (cells : list value).

(** The de-duplication signature
    [(section['order_no'], row['品名'], row['规格/图号'], str(row['数量']))].
    A row of [data_rows] is read as the dictionary that was appended; the
    conversions pandas applies to a column when frames are concatenated are
    not modelled. *)
Definition signature : Type := str * value * value * str.

(** [row[col]] on a row of [data_rows]. *)
Definition field (row : gmap str value) (col : str) : value :=
  default (VStr []) (row !! col).

Definition sig_of (id : str) (row : gmap str value) : signature :=
  (id, field row (u "品名"), field row (u "规格/图号"), py_str (field row (u "数量"))).

(** The variables of [run] that the loops update. The worksheet is kept as
    the sequence of its row writes, each with the row number written;
    styling is left out. *)
Record ExportState := {
  seen_rows : gset signature;
  ws : list (nat * sheet_row);
  curr_row : nat
}.

Definition item_cells (written_count : nat) (row : gmap str value) : list value :=
  (fun col => if bool_decide (col = u "序号")
              then VInt (Z.of_nat written_count + 1)
              else field row col) <$> standard_columns.

(** One iteration of [for _, row in section['data_rows'].iterrows()];
    the second component is [written_count]. *)
Definition write_item (id : str) (acc : ExportState * nat) (row : gmap str value)
    : ExportState * nat :=
  let sig := sig_of id row in
  if bool_decide (sig ∈ seen_rows acc.1) then acc
  else
    ({| seen_rows := {[sig]} ∪ seen_rows acc.1;
        ws := ws acc.1 ++ [(curr_row acc.1, ItemRow (item_cells acc.2 row))];
        curr_row := S (curr_row acc.1) |},
     S acc.2).

(** One iteration of [for section in sections]. *)
Definition export_section (st : ExportState) (section : OrderSection) : ExportState :=
  let st1 :=
    {| seen_rows := seen_rows st;
       ws := ws st ++ [(curr_row st,
                        InfoRow (date section) (info section) (order_no section))];
       curr_row := S (curr_row st) |} in
  let acc := foldl (write_item (order_no section)) (st1, 0) (data_rows section) in
  {| seen_rows := seen_rows acc.1;
     ws := ws acc.1;
     curr_row := if Nat.eqb acc.2 0 then curr_row acc.1 - 1 else curr_row acc.1 + 1 |}.

(** The loop over the files; [abort idx] is the flag [self._abort] as the
    iteration [idx] reads it. *)
Fixpoint run_files (pd : Pandas) (abort : nat -> bool) (idx : nat)
    (files : list str) (st : ExportState) : ExportState :=
  match files with
  | [] => st
  | fpath :: files' =>
      if abort idx then st
      else run_files pd abort (S idx) files'
             (foldl export_section st (parse_file_to_sections pd fpath))
  end.

(** [run] up to the point where the workbook is saved. *)
Definition run (pd : Pandas) (abort : nat -> bool) (files : list str) : ExportState :=
  run_files pd abort 0 files
    {| seen_rows := ∅; ws := [(1, TitleRow standard_columns)]; curr_row := 2 |}.

End WorkerThread.

(* ===================================================================== *)
(** ** A concrete runtime *)
(* ===================================================================== *)

(** [float] is IEEE 754 binary64 with round-to-nearest-even, as in CPython;
    the arithmetic is the specification arithmetic of the Standard Library.
    The text tables are CPython's on ASCII and on the characters that are
    white space; [lower], [\d] and [float] treat the non-ASCII letters and
    digits of other scripts as ordinary characters. *)
Module CPython.

Definition prec : Z := 53.
Definition emax : Z := 1024.

Definition binary64 : Type := spec_float.

Definition binary64_encode (x : binary64) : bool + bool + unit + bool * positive * Z :=
  match x with
  | S754_zero s => inl (inl (inl s))
  | S754_infinity s => inl (inl (inr s))
  | S754_nan => inl (inr tt)
  | S754_finite s m e => inr (s, m, e)
  end.

Definition binary64_decode (c : bool + bool + unit + bool * positive * Z) : binary64 :=
  match c with
  | inl (inl (inl s)) => S754_zero s
  | inl (inl (inr s)) => S754_infinity s
  | inl (inr _) => S754_nan
  | inr (s, m, e) => S754_finite s m e
  end.

#[export] Instance binary64_eq_dec : EqDecision binary64.
Proof. solve_decision. Defined.

#[export] Instance binary64_countable : Countable binary64.
Proof.
  apply (inj_countable' binary64_encode binary64_decode).
  intros []; reflexivity.
Defined.

(** The double nearest to [sign * num / den]. *)
Definition of_ratio (sign : bool) (num den : positive) : binary64 :=
  SFdiv prec emax (S754_finite sign num 0) (S754_finite false den 0).

(** The double nearest to [sign * m * 10^e]. *)
Definition of_decimal (sign : bool) (m : N) (e : Z) : binary64 :=
  match m with
  | N0 => S754_zero sign
  | Npos p =>
      match e with
      | Zneg k => of_ratio sign p (Pos.pow 10 k)
      | Z0 => of_ratio sign p 1
      | Zpos k => of_ratio sign (p * Pos.pow 10 k) 1
      end
  end.

Definition mul : binary64 -> binary64 -> binary64 := SFmul prec emax.

Definition integral (x : binary64) : bool :=
  match x with
  | S754_zero _ => true
  | S754_finite _ m e =>
      match e with
      | Zneg k => (Zpos m mod Zpos (Pos.pow 2 k) =? 0)%Z
      | _ => true
      end
  | _ => false
  end.

(** Truncation toward zero. *)
Definition to_int (x : binary64) : Z :=
  match x with
  | S754_finite s m e =>
      let a := match e with
               | Zneg k => (Zpos m / Zpos (Pos.pow 2 k))%Z
               | _ => (Zpos m * 2 ^ e)%Z
               end in
      if s then (- a)%Z else a
  | _ => 0%Z
  end.

(** [num / den] rounded to an integer, ties to even. *)
Definition div_half_even (num den : Z) : Z :=
  let q := (num / den)%Z in
  let r := (num mod den)%Z in
  match (2 * r ?= den)%Z with
  | Lt => q
  | Gt => (q + 1)%Z
  | Eq => if Z.even q then q else (q + 1)%Z
  end.

(** [round(x, 2)]: the decimal with two places nearest to the exact value
    of [x], ties to even, and then the double nearest to that decimal. *)
Definition round_half_even2 (x : binary64) : binary64 :=
  match x with
  | S754_finite s m e =>
      let hundredths :=
        match e with
        | Zneg k => div_half_even (Zpos m * 100) (Zpos (Pos.pow 2 k))
        | _ => (Zpos m * 2 ^ e * 100)%Z
        end in
      of_decimal s (Z.to_N hundredths) (-2)
  | _ => x
  end.

(** The digits 0 to 9; the decimal digits of other scripts, which [\d] and
    [float] also take, are ordinary characters here. *)
Definition is_ascii_digit (c : char) : bool := (48 <=? c)%N && (c <=? 57)%N.

(** Lower case of the letters A to Z; the cased letters outside ASCII,
    which [str.lower] also maps, are left as they are. *)
Definition ascii_lower (c : char) : char :=
  if (65 <=? c)%N && (c <=? 90)%N then (c + 32)%N else c.

(** [digit (["_"] digit)*], read from a position that holds a digit: the
    digit values and the remainder. *)
Fixpoint digitpart_from (s : str) : list N * str :=
  match s with
  | c :: s' =>
      if is_ascii_digit c then
        let r := digitpart_from s' in ((c - 48)%N :: r.1, r.2)
      else if (c =? 95)%N then
        match s' with
        | d :: _ => if is_ascii_digit d then digitpart_from s' else ([], s)
        | [] => ([], s)
        end
      else ([], s)
  | [] => ([], s)
  end.

Definition digitpart (s : str) : list N * str :=
  match s with
  | c :: _ => if is_ascii_digit c then digitpart_from s else ([], s)
  | [] => ([], s)
  end.

Definition number_of (ds : list N) : N := foldl (fun a d => (10 * a + d)%N) 0%N ds.

Definition take_sign (s : str) : bool * str :=
  match s with
  | 45%N :: s' => (true, s')
  | 43%N :: s' => (false, s')
  | _ => (false, s)
  end.

(** The exponent part: [None] when the text is not a well-formed tail. *)
Definition exponent_of (s : str) : option Z :=
  match s with
  | [] => Some 0%Z
  | c :: s' =>
      if (ascii_lower c =? 101)%N then
        let (neg, s'') := take_sign s' in
        match digitpart s'' with
        | ((_ :: _) as ds, []) =>
            Some (if neg then (- Z.of_N (number_of ds))%Z else Z.of_N (number_of ds))
        | _ => None
        end
      else None
  end.

(** Whitespace of [str.isspace]. *)
Definition is_space (c : char) : bool :=
  ((9 <=? c)%N && (c <=? 13)%N) || ((28 <=? c)%N && (c <=? 32)%N)
  || bool_decide (c ∈ [133; 160; 5760; 8232; 8233; 8239; 8287; 12288]%N)
  || ((8192 <=? c)%N && (c <=? 8202)%N).

(** [float(s)] on a text whose digits are ASCII digits *)
Definition parse_float (s : str) : option binary64 :=
  let (neg, body) := take_sign (strip_with is_space s) in
  let low := ascii_lower <$> body in
  if bool_decide (low = u "inf") || bool_decide (low = u "infinity")
  then Some (S754_infinity neg)
  else if bool_decide (low = u "nan") then Some S754_nan
  else
    let (ipart, r1) := digitpart body in
    let (fpart, r2) :=
      match r1 with
      | 46%N :: r => digitpart r
      | _ => ([], r1)
      end in
    match ipart ++ fpart with
    | [] => None
    | ds =>
        match exponent_of r2 with
        | Some e => Some (of_decimal neg (number_of ds) (e - Z.of_nat (length fpart)))
        | None => None
        end
    end.

(** [x >= 10^k] for [x = num / den] *)
Definition ge_pow10 (num den : Z) (k : Z) : bool :=
  match k with
  | Zneg p => (den <=? num * 10 ^ Zpos p)%Z
  | _ => (den * 10 ^ k <=? num)%Z
  end.

(** The [k] with [10^(k-1) <= x < 10^k], searched from the estimate [k]. *)
Fixpoint decimal_point (fuel : nat) (num den : Z) (k : Z) : Z :=
  match fuel with
  | O => k
  | S fuel' =>
      if ge_pow10 num den k then decimal_point fuel' num den (k + 1)
      else if ge_pow10 num den (k - 1) then k
      else decimal_point fuel' num den (k - 1)
  end.

(** [repr] digits: the shortest decimal [c * 10^(k-p)] that reads back as
    [x], the nearest to [x] among those of that length. *)
Fixpoint shortest_digits (fuel : nat) (x : binary64) (num den k : Z) (p : Z)
    : Z * Z :=
  let s := (p - k)%Z in
  let a := match s with Zneg q => num | _ => (num * 10 ^ s)%Z end in
  let b := match s with Zneg q => (den * 10 ^ Zpos q)%Z | _ => den end in
  let lo := (a / b)%Z in
  let hi := (lo + 1)%Z in
  let back c := bool_decide (of_decimal false (Z.to_N c) (k - p) = x) in
  let best :=
    match back lo, back hi with
    | true, true => Some (if (2 * (a mod b) <? b)%Z then lo
                          else if (b <? 2 * (a mod b))%Z then hi
                          else if Z.even lo then lo else hi)
    | true, false => Some lo
    | false, true => Some hi
    | false, false => None
    end in
  match best, fuel with
  | Some c, _ => (c, (k - p)%Z)
  | None, O => (lo, (k - p)%Z)
  | None, S fuel' => shortest_digits fuel' x num den k (p + 1)
  end.

Fixpoint strip_zeros (fuel : nat) (c e : Z) : Z * Z :=
  match fuel with
  | O => (c, e)
  | S fuel' => if (c mod 10 =? 0)%Z then strip_zeros fuel' (c / 10)%Z (e + 1)%Z else (c, e)
  end.

Definition zeros (n : Z) : str := repeat 48%N (Z.to_nat n).

(** The layout of [repr]: positional for [-4 < decpt <= 16], scientific
    otherwise. *)
Definition layout (digits : str) (decpt : Z) : str :=
  let n := Z.of_nat (length digits) in
  if (decpt <=? -4)%Z || (16 <? decpt)%Z then
    let e := (decpt - 1)%Z in
    let mant := match digits with
                | d :: ((_ :: _) as ds) => d :: 46%N :: ds
                | _ => digits
                end in
    let ex := str_of_Z (Z.abs e) in
    mant ++ [101%N; if (e <? 0)%Z then 45%N else 43%N]
         ++ (if (Z.abs e <? 10)%Z then 48%N :: ex else ex)
  else if (decpt <=? 0)%Z then u "0." ++ zeros (- decpt) ++ digits
  else if (n <=? decpt)%Z then digits ++ zeros (decpt - n) ++ u ".0"
  else take (Z.to_nat decpt) digits ++ 46%N :: drop (Z.to_nat decpt) digits.

(** [str(x)] *)
Definition repr (x : binary64) : str :=
  match x with
  | S754_nan => u "nan"
  | S754_infinity s => if s then u "-inf" else u "inf"
  | S754_zero s => if s then u "-0.0" else u "0.0"
  | S754_finite s m e =>
      let num := match e with Zneg _ => Zpos m | _ => (Zpos m * 2 ^ e)%Z end in
      let den := match e with Zneg q => (2 ^ Zpos q)%Z | _ => 1%Z end in
      let k := decimal_point 8 num den
                 (((Z.log2 num - Z.log2 den) * 30103) / 100000)%Z in
      let (c0, e0) := shortest_digits 17 (S754_finite false m e) num den k 1 in
      let (c, e1) := strip_zeros 20 c0 e0 in
      let digits := str_of_Z c in
      (if s then [45%N] else []) ++ layout digits (e1 + Z.of_nat (length digits))
  end.

(** Under [re.I] a pattern letter matches the characters with the same
    lower case, and [i], [s], [k] also match U+0131, U+017F and (through
    its lower case) U+0130, U+212A. *)
Definition simple_lower (c : char) : char :=
  if (c =? 304)%N then 105%N else if (c =? 8490)%N then 107%N else ascii_lower c.

Definition letter_ieq (c d : char) : bool :=
  let lc := ascii_lower c in
  (simple_lower d =? lc)%N
  || ((lc =? 105)%N && (d =? 305)%N)
  || ((lc =? 115)%N && (d =? 383)%N).

#[export] Instance builtins : Builtins := {|
  float := binary64;
  fzero := S754_zero false;
  float_of_str := parse_float;
  fmul := mul;
  is_integer := integral;
  int_of_float := to_int;
  round2 := round_half_even2;
  str_of_float := repr;
  isspace := is_space;
  lower := fmap ascii_lower;
  re_digit := is_ascii_digit;
  re_ieq := letter_ieq
|}.

End CPython.

(* ===================================================================== *)
(** ** WorkerThread: the end of [run] and the outer border *)
(* ===================================================================== *)

Section Saving.
Context `{B : Builtins}.

(** [if curr_row > 2:] the workbook is saved and [finished_signal] sent;
    otherwise [stopped_signal] is sent and nothing is saved. *)
Definition saves_workbook (st : ExportState) : bool := 2 <? curr_row st.

End Saving.

Section OuterBorder.
(** The two [Side] objects that [run] passes. *)
Context {Side : Type} (thick thin : Side).

(** [Border(left=..., right=..., top=..., bottom=...)] *)
Record Border := { left : Side; right : Side; top : Side; bottom : Side }.

(** The border that the loop body gives the cell [(r, c)]. *)
Definition outer_border_at (start_r end_r r c : nat) : Border :=
  {| left := if Nat.eqb c 1 then thick else thin;
     right := if Nat.eqb c 8 then thick else thin;
     top := if Nat.eqb r start_r then thick else thin;
     bottom := if Nat.eqb r end_r then thick else thin |}.

(** [apply_outer_border]; the worksheet is here the border of each cell,
    by row and column. [range(start_r, end_r + 1)] is empty when
    [end_r < start_r]. *)
Definition apply_outer_border (borders : gmap (nat * nat) Border) (start_r end_r : nat)
    : gmap (nat * nat) Border :=
  foldl (fun bs r =>
           foldl (fun bs' c => <[(r, c) := outer_border_at start_r end_r r c]> bs')
             bs (seq 1 8))
    borders (seq start_r (end_r + 1 - start_r)).

End OuterBorder.

(* ===================================================================== *)
(** ** MainWindow: the list of files *)
(* ===================================================================== *)

Module MainWindow.

(** [self.files] and, for [self.file_list], the [file_path] of the widget
    of each item, in the order of the items. *)
Record Window := { files : list str; file_list : list str }.

(** The window after [__init__]. *)
Definition init : Window := {| files := []; file_list := [] |}.

(** [l.remove(x)] where [x in l], and the loop that takes the first item
    whose widget has the path and stops: the first occurrence goes. *)
Fixpoint remove_first (x : str) (l : list str) : list str :=
  match l with
  | [] => []
  | y :: l' => if bool_decide (y = x) then l' else y :: remove_first x l'
  end.

(** One iteration of the loop of [add_files]. *)
Definition add_file (w : Window) (p : str) : Window :=
  if bool_decide (p ∈ files w) then w
  else {| files := files w ++ [p]; file_list := file_list w ++ [p] |}.

(** [add_files], for the paths that the file dialog returns. *)
Definition add_files (w : Window) (paths : list str) : Window :=
  foldl add_file w paths.

Definition remove_file (w : Window) (path : str) : Window :=
  {| files := if bool_decide (path ∈ files w) then remove_first path (files w)
              else files w;
     file_list := remove_first path (file_list w) |}.

Definition clear_list (w : Window) : Window := {| files := []; file_list := [] |}.

(** What the user does to the list. *)
Inductive action :=
  | AddFiles (paths : list str)
  | RemoveFile (path : str)
  | ClearList.

Definition perform (w : Window) (a : action) : Window :=
  match a with
  | AddFiles paths => add_files w paths
  | RemoveFile path => remove_file w path
  | ClearList => clear_list w
  end.

End MainWindow.

(* ===================================================================== *)
(** ** Vocabulary of the properties *)
(* ===================================================================== *)

Section Vocabulary.
Context `{B : Builtins}.

(** [core] is [text] without the whitespace around it: [text] is [core]
    between two runs of whitespace, and [core] neither starts nor ends with
    a whitespace character. *)
Definition without_surrounding_whitespace (text core : str) : Prop :=
  ∃ pre post,
    text = pre ++ core ++ post
    ∧ Forall (fun c => isspace c = true) pre
    ∧ Forall (fun c => isspace c = true) post
    ∧ (∀ c, head core = Some c → isspace c = false)
    ∧ (∀ c, last core = Some c → isspace c = false).

(** [digits] is [core] without its commas: the other characters, in their
    order. *)
Inductive without_commas : str → str → Prop :=
  | without_commas_nil : without_commas [] []
  | without_commas_skip s t :
      without_commas s t → without_commas (44%N :: s) t
  | without_commas_keep c s t :
      c ≠ 44%N → without_commas s t → without_commas (c :: s) (c :: t).

(** The least number of characters a match of [pat] has. *)
Definition min_length (pat : list Re.atom) : nat :=
  foldr (fun a n => Re.rmin a + n) 0 pat.

(** The section holds at least one record. *)
Definition has_records (s : OrderSection) : Prop := data_rows s ≠ [].

(** Every record held by the scan, in a closed section or in the active
    one, satisfies [P]. *)
Definition records_satisfy (P : gmap str value → Prop) (st : ScanState) : Prop :=
  Forall (fun s => Forall P (data_rows s)) (sections st)
  ∧ ∀ cur, current_section st = Some cur → Forall P (data_rows cur).

(** Two frames hold the same grid: the same shape and the same text in
    every cell. *)
Definition same_grid (df1 df2 : DataFrame) : Prop :=
  columns df1 = columns df2
  ∧ length (cells df1) = length (cells df2)
  ∧ ∀ r c row1 row2,
      cells df1 !! r = Some row1 → cells df2 !! r = Some row2 →
      c < columns df1 → cell_at row1 c = cell_at row2 c.

(** The frame with every row written out over all the columns. *)
Definition rectangular (df : DataFrame) : DataFrame :=
  {| columns := columns df;
     cells := (fun row => cell_at row <$> seq 0 (columns df)) <$> cells df |}.

(** The field [k] has a keyword in the lower-cased cell text [low_val]. *)
Definition field_matches (entries : list (str * list str)) (k low_val : str) : bool :=
  existsb (fun e => bool_decide (e.1 = k) && any_in e.2 low_val) entries.

(** The item rows written to the worksheet, in the order of writing. *)
Definition items_written (st : ExportState) : list (list value) :=
  omap (fun w => match w.2 with ItemRow cs => Some cs | _ => None end) (ws st).

(** The rows of one section that survive: a row is dropped exactly when
    its signature is among [earlier], the signatures of the rows exported
    before this section, or among those of the rows before it in the
    section. *)
Definition first_occurrences (earlier : list signature) (id : str)
    (rows : list (gmap str value)) : list (gmap str value) :=
  mjoin (imap (fun j row =>
                 if bool_decide (sig_of id row ∈ earlier ++ (sig_of id <$> take j rows))
                 then [] else [row]) rows).

(** The item rows a batch is expected to leave: section after section the
    surviving rows, numbered from 1 within their section. *)
Fixpoint expected_items (earlier : list signature) (secs : list OrderSection)
    : list (list value) :=
  match secs with
  | [] => []
  | s :: secs' =>
      imap item_cells (first_occurrences earlier (order_no s) (data_rows s))
      ++ expected_items (earlier ++ (sig_of (order_no s) <$> data_rows s)) secs'
  end.

(** The sections of the files that [run] reaches before it is aborted. *)
Fixpoint sections_read (pd : Pandas) (abort : nat → bool) (idx : nat) (files : list str)
    : list OrderSection :=
  match files with
  | [] => []
  | fpath :: files' =>
      if abort idx then []
      else parse_file_to_sections pd fpath ++ sections_read pd abort (S idx) files'
  end.

(** The probes of the header test. *)
Definition NAME_PROBES : list str := [u "品名"; u "物料名称"; u "规格"].
Definition QUANTITY_PROBES : list str := [u "数量"; u "单价"].

(** [UNIT_MAP] without the entries whose key holds an earlier key. *)
Definition UNIT_MAP_SHORT : list (str * str) :=
  [ (u "個", u "个"); (u "臺", u "台"); (u "公斤", u "kg"); (u "千克", u "kg");
    (u "g", u "g") ].

(** [t] matches [pat]: it splits into one run per atom, each run of
    characters of the atom's class and of a length within its bounds. *)
Inductive matches : list Re.atom → str → Prop :=
  | matches_nil : matches [] []
  | matches_cons a pat run rest :
      Re.rmin a ≤ length run → length run ≤ Re.rmax a →
      Forall (fun c => Re.accepts a c = true) run →
      matches pat rest →
      matches (a :: pat) (run ++ rest).

(** All the records the scan holds, those of the closed sections and then
    those of the active one. *)
Definition all_records (st : ScanState) : list (gmap str value) :=
  (sections st ≫= data_rows) ++ from_option data_rows [] (current_section st).

(** The worksheet that a sequence of row writes leaves: a later write to a
    row replaces the earlier one. *)
Definition sheet_of (writes : list (nat * sheet_row)) : gmap nat sheet_row :=
  foldl (fun m w => <[w.1 := w.2]> m) ∅ writes.

(** What a finished section leaves written: every write lies on a row up to
    [curr_row], and a title or item row lies above [curr_row] and is still
    on the sheet. *)
Definition writes_kept (st : ExportState) : Prop :=
  Forall (fun w =>
    w.1 ≤ curr_row st
    ∧ match w.2 with
      | InfoRow _ _ _ => True
      | _ => w.1 < curr_row st ∧ sheet_of (ws st) !! w.1 = Some w.2
      end) (ws st).

End Vocabulary.

(* ===================================================================== *)
(** ** Concrete sheets *)
(* ===================================================================== *)

Module Sheets.

#[local] Existing Instance CPython.builtins.

(** A frame given by its rows of cell texts. *)
Definition frame (ncols : nat) (rows : list (list string)) : DataFrame :=
  {| columns := ncols; cells := List.map (List.map u) rows |}.

(** The row [r] of a frame as the main loop reads it. *)
Definition row_of (df : DataFrame) (r : nat) : list str :=
  stripped_row df (default [] (cells df !! r)).

Definition state_after (df : DataFrame) (n : nat) : ScanState :=
  foldl (scan_row (find_global_id (raw_row_str df <$> cells df))) initial_state
    (take n (stripped_row df <$> cells df)).

Definition titles : list string := ["品名"; "数量"; "备注"]%string.

(** An order row, then a header row that carries another order number,
    then an item. *)
Definition header_with_token : DataFrame :=
  frame 3 [ [""; ""; "XIDP-0000000001"];
            ["品名"; "数量"; "XIDP-0000000002"];
            ["螺栓"; "3"; ""] ]%string.

(** Two header rows with different order numbers before the first item. *)
Definition tokens_in_headers : DataFrame :=
  frame 3 [ ["品名"; "数量"; "XIDP-0000000001"];
            ["品名"; "数量"; "XIDP-0000000002"];
            ["螺栓"; "1"; ""] ]%string.

(** An item before the only order number of the sheet. *)
Definition token_after_item : DataFrame :=
  frame 3 [ titles;
            ["螺栓"; "1"; ""];
            [""; ""; "XIDP-1234567890"];
            ["螺母"; "2"; ""] ]%string.

(** The same order number in two spellings. *)
Definition two_spellings : DataFrame :=
  frame 3 [ titles;
            [""; ""; "XIDP-1234567890"];
            ["螺栓"; "1"; ""];
            [""; ""; "xidp-1234567890"];
            ["螺母"; "2"; ""] ]%string.

(** The scenario of the specification: a header, an order row, an item
    whose amount cell disagrees with quantity times price. *)
Definition bolts : DataFrame :=
  frame 7 [ ["XIDP-A1234567890 2024-03-15 合计"];
            ["品名"; "规格"; "单位"; "数量"; "单价"; "金额"; "备注"];
            ["螺栓"; "M6x20"; "个"; "10"; "2.50"; "999"; "无"] ]%string.

(** The same items with another unit price, as a second file would hold
    them. *)
Definition bolts_repriced : DataFrame :=
  frame 7 [ ["XIDP-A1234567890 2024-03-15 合计"];
            ["品名"; "规格"; "单位"; "数量"; "单价"; "金额"; "备注"];
            ["螺栓"; "M6x20"; "个"; "10"; "3.10"; ""; "无"];
            ["螺母"; "M6"; "个"; "4"; "0.5"; ""; ""] ]%string.

(** An order row and an item, without a row of column titles. *)
Definition no_titles : DataFrame :=
  frame 3 [ [""; ""; "XIDP-0000000001"];
            ["螺栓"; "3"; ""] ]%string.

(** Column titles and two items, without an order number. *)
Definition no_order_no : DataFrame :=
  frame 3 [ titles;
            ["螺栓"; "1"; ""];
            ["螺母"; "2"; ""] ]%string.

(** Every reader fails. *)
Definition unreadable : Pandas :=
  {| read_csv := fun _ _ => Raise; read_excel := fun _ => Raise |}.

(** A workbook stored under a [.csv] name: no encoding reads it as CSV,
    [read_excel] reads it. *)
Definition workbook_named_csv : Pandas :=
  {| read_csv := fun _ _ => Raise; read_excel := fun _ => Return two_spellings |}.

(** Two files of a batch. *)
Definition two_files : Pandas :=
  {| read_csv := fun _ _ => Raise;
     read_excel := fun p => if bool_decide (p = u "a.xlsx") then Return bolts
                            else if bool_decide (p = u "b.xlsx") then Return bolts_repriced
                            else Raise |}.

End Sheets.

(* ===================================================================== *)
(** ** Properties *)
(* ===================================================================== *)

(** *** The matcher *)

Section MatcherFacts.

Lemma run_length_le p limit s : Re.run_length p limit s ≤ length s.
Proof.
  revert s; induction limit as [|limit IH]; intros [|c s]; simpl; try lia.
  destruct (p c); simpl; [specialize (IH s)|]; lia.
Qed.

(** A successful repetition used between [lo] and [j] characters. *)
Lemma greedy_some rest s lo j n :
  Re.greedy rest s lo j = Some n →
  ∃ k m, lo ≤ k ∧ k ≤ j ∧ rest (drop k s) = Some m ∧ n = k + m.
Proof.
  induction j as [|j IH]; simpl.
  - destruct (Nat.ltb_spec 0 lo); [done|].
    destruct (rest (drop 0 s)) as [m|] eqn:E; [|done].
    intros [= <-]. exists 0, m. repeat split; try lia. done.
  - destruct (Nat.ltb_spec (S j) lo); [done|].
    destruct (rest (drop (S j) s)) as [m|] eqn:E.
    + intros [= <-]. exists (S j), m. repeat split; try lia. done.
    + intros (k & m & ? & ? & ? & ?)%IH. exists k, m. repeat split; try lia. done.
Qed.

Lemma match_here_bounds pat s n :
  Re.match_here pat s = Some n → min_length pat ≤ n ∧ n ≤ length s.
Proof.
  revert s n; induction pat as [|a pat IH]; intros s n; simpl.
  - intros [= <-]. lia.
  - intros (k & m & Hlo & Hk & Hm & ->)%greedy_some.
    apply IH in Hm as [? Hm]. rewrite length_drop in Hm.
    pose proof (run_length_le (Re.accepts a) (Re.rmax a) s). lia.
Qed.

(** [search] returns a piece of the text it was given, unchanged. *)
Lemma search_substring pat s t :
  Re.search pat s = Some t → ∃ pre post, s = pre ++ t ++ post.
Proof.
  induction s as [|c s IH]; simpl.
  - destruct (Re.match_here pat []) as [n|]; [|done].
    intros [= <-]. exists [], []. by rewrite take_nil.
  - destruct (Re.match_here pat (c :: s)) as [n|].
    + intros [= <-]. exists [], (drop n (c :: s)). simpl. by rewrite take_drop.
    + intros (pre & post & ->)%IH. by exists (c :: pre), post.
Qed.

Lemma search_length pat s t :
  Re.search pat s = Some t → min_length pat ≤ length t.
Proof.
  induction s as [|c s IH]; simpl.
  - destruct (Re.match_here pat []) as [n|] eqn:E; [|done].
    intros [= <-]. apply match_here_bounds in E. simpl in E.
    rewrite length_take. simpl. lia.
  - destruct (Re.match_here pat (c :: s)) as [n|] eqn:E; [|done].
    intros [= <-]. apply match_here_bounds in E.
    rewrite length_take. lia.
Qed.

End MatcherFacts.

Section Properties.
Context `{B : Builtins}.

(** An order-number token has at least the fifteen characters the pattern
    asks for. *)
Lemma order_no_nonempty s tok :
  Re.search order_no_pattern s = Some tok → tok ≠ [].
Proof.
  intros H%search_length. simpl in H. by destruct tok; simpl in *; [lia|].
Qed.

(** *** [safe_float] *)

Lemma lstrip_with_spec (sp : char → bool) (pre rest : str) :
  Forall (fun c => sp c = true) pre →
  (∀ c, head rest = Some c → sp c = false) →
  lstrip_with sp (pre ++ rest) = rest.
Proof.
  intros Hpre Hrest. induction Hpre as [|c pre Hc _ IH]; simpl.
  - destruct rest as [|c rest]; [done|]. simpl. by rewrite (Hrest c eq_refl).
  - by rewrite Hc.
Qed.

Lemma lstrip_with_split (sp : char → bool) (s : str) :
  ∃ pre, s = pre ++ lstrip_with sp s
         ∧ Forall (fun c => sp c = true) pre
         ∧ ∀ c, head (lstrip_with sp s) = Some c → sp c = false.
Proof.
  induction s as [|d s (pre & Hs & Hpre & Hhd)]; simpl.
  - exists []. by repeat split.
  - destruct (sp d) eqn:Hd.
    + exists (d :: pre). split; [by rewrite Hs at 1|]. split; [by apply Forall_cons|done].
    + exists []. repeat split; [done|]. by intros c [= <-].
Qed.

Lemma head_rev_last (l : str) (c : char) : head (rev l) = Some c → last l = Some c.
Proof.
  intros [l' Hl]%head_Some. apply (f_equal (@rev char)) in Hl.
  rewrite rev_involutive in Hl. rewrite Hl. simpl. apply last_snoc.
Qed.

Lemma last_rev_head (l : str) (c : char) : last (rev l) = Some c → head l = Some c.
Proof.
  intros [l' Hl]%last_Some. apply (f_equal (@rev char)) in Hl.
  rewrite rev_involutive, rev_app_distr in Hl. by rewrite Hl.
Qed.

(** [strip_with] gives the text without the whitespace around it, and
    nothing else does. *)
Lemma strip_with_spec (text core : str) :
  without_surrounding_whitespace text core ↔ strip text = core.
Proof.
  unfold strip, strip_with. split.
  - intros (pre & post & -> & Hpre & Hpost & Hhd & Hlast).
    destruct core as [|c0 core'].
    + simpl. rewrite <-(app_nil_r (pre ++ post)).
      rewrite (lstrip_with_spec isspace (pre ++ post) []);
        [done|by apply Forall_app|done].
    + rewrite (lstrip_with_spec isspace pre ((c0 :: core') ++ post) Hpre)
        by (intros c Hc; apply Hhd; exact Hc).
      rewrite rev_app_distr.
      rewrite (lstrip_with_spec isspace (rev post) (rev (c0 :: core'))).
      * apply rev_involutive.
      * apply Forall_forall. intros c Hc. apply list_elem_of_In, in_rev in Hc.
        apply list_elem_of_In in Hc. by apply (proj1 (Forall_forall _ _) Hpost).
      * intros c Hc. by apply Hlast, head_rev_last.
  - intros <-.
    destruct (lstrip_with_split isspace text) as (pre & Htext & Hpre & Hhd).
    destruct (lstrip_with_split isspace (rev (lstrip_with isspace text)))
      as (q & Hrev & Hq & Hlast).
    set (r := lstrip_with isspace text) in *.
    set (core := rev (lstrip_with isspace (rev r))).
    assert (r = core ++ rev q) as Hr.
    { unfold core. rewrite <-rev_app_distr, <-Hrev. by rewrite rev_involutive. }
    exists pre, (rev q). split; [by rewrite <-Hr|]. split; [done|]. split.
    { apply Forall_forall. intros c Hc. apply list_elem_of_In, in_rev in Hc.
      apply list_elem_of_In in Hc. by apply (proj1 (Forall_forall _ _) Hq). }
    split.
    + intros c Hc. apply Hhd. rewrite Hr, head_app. by rewrite Hc.
    + intros c Hc. apply Hlast. apply last_rev_head. exact Hc.
Qed.

Lemma without_commas_spec (core digits : str) :
  without_commas core digits ↔ remove_char 44%N core = digits.
Proof.
  unfold remove_char. split.
  - induction 1 as [|s t _ IH|c s t Hc _ IH]; simpl; [done|done|].
    apply N.eqb_neq in Hc. rewrite Hc. simpl. by rewrite IH.
  - intros <-. induction core as [|c core IH]; simpl; [constructor|].
    destruct (N.eqb_spec c 44) as [->|Hc]; simpl; by constructor.
Qed.

(** C8. [safe_float] answers every input and no call ends in an
    exception. It answers [0.0] for [None]. For a value whose text
    ([str(x)]: the string itself, or the digits of a number) is [text], it
    takes [text] without the whitespace around it; when nothing is left (the
    text is empty or all whitespace) it answers [0.0], and otherwise it
    takes the commas out and answers the number that [float] reads there,
    or [0.0] when [float] refuses it; this refusal is the only failure of
    the body, and the [except] clause turns it into [0.0]. *)
Theorem safe_float_total :
  safe_float None = fzero
  ∧ safe_float_try None = Return fzero
  ∧ (∀ text : str,
       Forall (fun c => isspace c = true) text → safe_float (Some (VStr text)) = fzero)
  ∧ ∀ (v : value) (text : str),
      (v = VStr text
       ∨ (∃ z, v = VInt z ∧ text = str_of_Z z)
       ∨ (∃ x, v = VFloat x ∧ text = str_of_float x)) →
      (∃ core digits,
         without_surrounding_whitespace text core ∧ without_commas core digits)
      ∧ ∀ core digits,
          without_surrounding_whitespace text core → without_commas core digits →
          safe_float (Some v)
          = (if bool_decide (core = []) then fzero
             else match float_of_str digits with
                  | Some number => number
                  | None => fzero
                  end)
          ∧ (safe_float_try (Some v) = Raise
             ↔ core ≠ [] ∧ float_of_str digits = None).
Proof.
  split; [done|]. split; [done|].
  assert (∀ (v : value) (text core digits : str),
            py_str v = text →
            without_surrounding_whitespace text core → without_commas core digits →
            safe_float (Some v)
            = (if bool_decide (core = []) then fzero
               else match float_of_str digits with
                    | Some number => number
                    | None => fzero
                    end)
            ∧ (safe_float_try (Some v) = Raise
               ↔ core ≠ [] ∧ float_of_str digits = None)) as Hbody; last first.
  { split.
    - intros text Hsp.
      destruct (Hbody (VStr text) text [] [] eq_refl) as [-> _]; [|constructor|done].
      exists text, []. rewrite app_nil_r. by repeat split.
    - intros v text Hv.
      assert (py_str v = text) as Htext.
      { destruct Hv as [->|[(z & -> & ->)|(x & -> & ->)]]; done. }
      split.
      + exists (strip text), (remove_char 44%N (strip text)).
        split; [by apply strip_with_spec|by apply without_commas_spec].
      + intros core digits. by apply Hbody. }
  intros v text core digits Htext Hcore%strip_with_spec Hdigits%without_commas_spec.
  unfold safe_float, safe_float_try, try_except. rewrite Htext, Hcore, Hdigits.
  case_bool_decide as Hc.
  { split; [done|]. split; [done|]. by intros [? _]. }
  destruct (float_of_str digits) as [number|]; (split; [done|]).
  - split; [done|]. by intros [_ ?].
  - by split.
Qed.

(** *** Projection of a data row *)

Lemma keys_of_graph {A C} (f : A → C) (l : list A) :
  ((fun c => (c, f c)) <$> l).*1 = l.
Proof.
  induction l as [|c cs IH]; [done|]. rewrite !fmap_cons. simpl. by rewrite IH.
Qed.

Lemma standard_columns_NoDup : NoDup standard_columns.
Proof. apply (bool_decide_unpack _). by vm_compute. Qed.

(** A record has exactly the standard columns; a column that [item_data]
    lacks holds the empty string. *)
Lemma filtered_lookup (item_data : gmap str value) (col : str) :
  col ∈ standard_columns →
  (list_to_map ((fun c => (c, default (VStr []) (item_data !! c))) <$> standard_columns)
     : gmap str value) !! col
  = Some (default (VStr []) (item_data !! col)).
Proof.
  intros Hin. apply elem_of_list_to_map_1.
  - rewrite keys_of_graph. apply standard_columns_NoDup.
  - apply list_elem_of_fmap. by exists col.
Qed.

Lemma amount_is_column : u "金额" ∈ standard_columns.
Proof. apply (bool_decide_unpack _). by vm_compute. Qed.

(** The amount of a record is [round(qty * prc, 2)] for the quantity and
    unit-price texts of [item_data]; the text under the amount key is not
    read. *)
Lemma item_record_amount (item_data : gmap str str) :
  item_record item_data !! u "金额"
  = Some (VFloat (round2 (fmul (safe_float (VStr <$> item_data !! u "数量"))
                            (safe_float (VStr <$> item_data !! u "单价"))))).
Proof.
  unfold item_record.
  by rewrite (filtered_lookup _ _ amount_is_column), lookup_insert_eq.
Qed.

(** The columns that the program does not compute hold texts: the text of
    the row's cell, or the empty string. *)
Lemma item_record_text (item_data : gmap str str) (col : str) :
  col ∈ standard_columns →
  col ≠ u "数量" → col ≠ u "单价" → col ≠ u "金额" →
  item_record item_data !! col = Some (VStr (default [] (item_data !! col))).
Proof.
  intros Hcol Hq Hp Ha. unfold item_record.
  rewrite (filtered_lookup _ _ Hcol), !lookup_insert_ne, lookup_fmap by done.
  by destruct (item_data !! col).
Qed.

(** *** Emitted sections *)

Lemma emit_section_has_records secs cur :
  Forall has_records secs → Forall has_records (emit_section secs cur).
Proof.
  intros H. unfold emit_section. destruct cur as [s|]; [|done].
  case_bool_decide; [done|]. apply Forall_app. split; [done|].
  by apply Forall_singleton.
Qed.

Lemma detect_order_sections st row_str :
  Forall has_records (sections st) →
  Forall has_records (sections (detect_order st row_str)).
Proof.
  intros H. unfold detect_order.
  destruct (Re.search order_no_pattern row_str); [|done].
  destruct (_ && _); [|done]. simpl. by apply emit_section_has_records.
Qed.

Lemma collect_row_sections g st row_values :
  sections (collect_row g st row_values) = sections st.
Proof.
  unfold collect_row. destruct (scan_header_map st); [|done].
  destruct (truthy_map _); [|done]. by destruct (_ && _).
Qed.

Lemma scan_row_sections g st row_values :
  Forall has_records (sections st) →
  Forall has_records (sections (scan_row g st row_values)).
Proof.
  intros H. unfold scan_row. destruct (is_header_row _); [done|].
  rewrite collect_row_sections. by apply detect_order_sections.
Qed.

Lemma scan_rows_sections g rows st :
  Forall has_records (sections st) →
  Forall has_records (sections (foldl (scan_row g) st rows)).
Proof.
  revert st; induction rows as [|row rows IH]; intros st H; simpl; [done|].
  by apply IH, scan_row_sections.
Qed.

(** C4. Every section that [parse_file_to_sections] returns holds at least
    one record, for every frame and so for every file. *)
Theorem emitted_sections_have_records :
  (∀ df : DataFrame, Forall (fun s => 0 < length (data_rows s)) (parse_frame df))
  ∧ (∀ (pd : Pandas) (file_path : str),
       Forall (fun s => 0 < length (data_rows s)) (parse_file_to_sections pd file_path)).
Proof.
  assert (∀ df, Forall (fun s => 0 < length (data_rows s)) (parse_frame df)) as Hdf.
  { intros df. unfold parse_frame. destruct (df_empty df); [done|].
    eapply Forall_impl.
    - apply emit_section_has_records, scan_rows_sections. simpl. done.
    - intros s Hs. unfold has_records in Hs. destruct (data_rows s); simpl; [done|lia]. }
  split; [done|]. intros pd file_path. apply Hdf.
Qed.


(** *** The records of the scan *)

Lemma emit_section_records P secs cur :
  Forall (fun s => Forall P (data_rows s)) secs →
  (∀ s, cur = Some s → Forall P (data_rows s)) →
  Forall (fun s : OrderSection => Forall P (data_rows s)) (emit_section secs cur).
Proof.
  intros Hsecs Hcur. unfold emit_section. destruct cur as [s|]; [|done].
  case_bool_decide; [done|]. apply Forall_app. split; [done|].
  apply Forall_singleton. by apply Hcur.
Qed.

Lemma detect_order_records P st row_str :
  records_satisfy P st → records_satisfy P (detect_order st row_str).
Proof.
  intros [Hsecs Hcur]. unfold detect_order.
  destruct (Re.search order_no_pattern row_str); [|done].
  destruct (_ && _); [|done]. split; simpl.
  - by apply emit_section_records.
  - intros cur [= <-]. simpl. done.
Qed.

Lemma collect_row_records P g st row_values :
  (∀ h, P (item_record (map_row_to_std row_values h))) →
  records_satisfy P st → records_satisfy P (collect_row g st row_values).
Proof.
  intros Hrow [Hsecs Hcur]. unfold collect_row.
  destruct (scan_header_map st) as [h|]; [|done].
  destruct (truthy_map _); [|done]. destruct (_ && _); [|done].
  split; simpl; [done|]. intros cur [= <-]. simpl.
  apply Forall_app. split; [|by apply Forall_singleton].
  destruct (current_section st) as [cur|]; simpl; [by apply Hcur|done].
Qed.

Lemma scan_row_records P g st row_values :
  (∀ h, P (item_record (map_row_to_std row_values h))) →
  records_satisfy P st → records_satisfy P (scan_row g st row_values).
Proof.
  intros Hrow Hst. unfold scan_row. destruct (is_header_row _).
  - destruct Hst as [Hsecs Hcur]. split; simpl; [done|].
    intros cur Heq. destruct (current_section st) as [cur0|]; simplify_eq/=.
    by apply Hcur.
  - by apply collect_row_records, detect_order_records.
Qed.

Lemma scan_rows_records P g rows st :
  (∀ row_values h, row_values ∈ rows → P (item_record (map_row_to_std row_values h))) →
  records_satisfy P st → records_satisfy P (foldl (scan_row g) st rows).
Proof.
  revert st; induction rows as [|row rows IH]; intros st Hrows Hst; simpl; [done|].
  apply IH.
  - intros row_values h Hin. apply Hrows. by apply list_elem_of_further.
  - apply scan_row_records; [|done]. intros h. apply Hrows, list_elem_of_here.
Qed.

(** C5. The amount of the record built from a row is
    [round(qty * prc, 2)] for the coerced quantity and unit-price cells of
    that row, also when the row's own amount cell holds another text; and
    every record of every section that the scan of a frame returns is the
    record of one of the frame's rows, with that amount. *)
Theorem amount_recomputed :
  (∀ (row_values : list str) (h_map : gmap str nat),
     let item_data := map_row_to_std row_values h_map in
     let qty := safe_float (VStr <$> item_data !! u "数量") in
     let prc := safe_float (VStr <$> item_data !! u "单价") in
     item_record item_data !! u "金额" = Some (VFloat (round2 (fmul qty prc)))
     ∧ ∀ source_amount : str,
         item_record (<[u "金额" := source_amount]> item_data) !! u "金额"
         = Some (VFloat (round2 (fmul qty prc))))
  ∧ (∀ df : DataFrame,
       Forall (fun s =>
         Forall (fun record =>
           ∃ row_values h_map,
             row_values ∈ stripped_row df <$> cells df
             ∧ record = item_record (map_row_to_std row_values h_map)
             ∧ let item_data := map_row_to_std row_values h_map in
               record !! u "金额"
               = Some (VFloat (round2 (fmul (safe_float (VStr <$> item_data !! u "数量"))
                                         (safe_float (VStr <$> item_data !! u "单价"))))))
           (data_rows s))
         (parse_frame df)).
Proof.
  split.
  - intros row_values h_map item_data qty prc. split; [apply item_record_amount|].
    intros source_amount. rewrite item_record_amount.
    by rewrite !lookup_insert_ne by (by vm_compute).
  - intros df. unfold parse_frame. destruct (df_empty df); [done|].
    match goal with |- context [foldl (scan_row ?g) ?st0 ?rows] =>
      destruct (scan_rows_records
                  (fun record => ∃ row_values h_map,
                     row_values ∈ rows
                     ∧ record = item_record (map_row_to_std row_values h_map)
                     ∧ record !! u "金额"
                       = Some (VFloat (round2
                           (fmul (safe_float (VStr <$> map_row_to_std row_values h_map !! u "数量"))
                                 (safe_float (VStr <$> map_row_to_std row_values h_map !! u "单价"))))))
                  g rows st0) as [Hsecs Hcur] end.
    + intros row_values h Hin. exists row_values, h.
      split; [done|]. split; [done|]. apply item_record_amount.
    + split; simpl; [done|]. intros cur Heq. discriminate Heq.
    + apply emit_section_records; [done|]. intros s Hs. by apply Hcur.
Qed.

(** *** Two scans of one grid *)

Lemma same_grid_refl df : same_grid df df.
Proof. repeat split. intros r c row1 row2 H1 H2 _. congruence. Qed.

Lemma same_grid_rectangular df : same_grid df (rectangular df).
Proof.
  split; [done|]. split; [simpl; by rewrite length_fmap|].
  intros r c row1 row2 H1 H2 Hc. simpl in H2.
  rewrite list_lookup_fmap, H1 in H2. simpl in H2. injection H2 as <-.
  unfold cell_at at 2. by rewrite list_lookup_fmap, lookup_seq_lt.
Qed.

(** What the scan reads of a frame is determined by its cells. *)
Lemma rows_read_alike {A} (f : list str → A) n (rows1 rows2 : list (list str)) :
  length rows1 = length rows2 →
  (∀ r c row1 row2, rows1 !! r = Some row1 → rows2 !! r = Some row2 →
                    c < n → cell_at row1 c = cell_at row2 c) →
  (fun row => f (cell_at row <$> seq 0 n)) <$> rows1
  = (fun row => f (cell_at row <$> seq 0 n)) <$> rows2.
Proof.
  revert rows2; induction rows1 as [|row1 rows1 IH]; intros [|row2 rows2] Hlen Hcell;
    simplify_eq/=; [done|].
  f_equal.
  - f_equal. apply list_fmap_ext. intros i c Hc.
    apply (Hcell 0 c row1 row2); [done..|].
    apply lookup_seq in Hc. lia.
  - apply IH; [done|]. intros r c r1 r2 H1 H2. apply (Hcell (S r) c r1 r2); done.
Qed.

(** The scan reads a frame through its grid: two frames of the same shape
    with the same text in every cell give the same sections, however their
    rows are stored. *)
Lemma parse_frame_reads_grid (df1 df2 : DataFrame) :
  same_grid df1 df2 → parse_frame df1 = parse_frame df2.
Proof.
  intros (Hcol & Hlen & Hcell). unfold parse_frame.
  assert (df_empty df1 = df_empty df2) as ->.
  { unfold df_empty. rewrite Hcol.
    destruct (cells df1), (cells df2); simplify_eq/=; done. }
  assert (raw_row_str df1 <$> cells df1 = raw_row_str df2 <$> cells df2) as ->.
  { unfold raw_row_str. rewrite <-Hcol.
    by apply (rows_read_alike (join (u " "))). }
  assert (stripped_row df1 <$> cells df1 = stripped_row df2 <$> cells df2) as ->.
  { pose proof (rows_read_alike (fmap strip) (columns df1) _ _ Hlen Hcell) as H.
    unfold stripped_row. rewrite <-Hcol.
    etrans; [|etrans; [exact H|]]; apply list_fmap_ext; intros i row _;
      by rewrite <-list_fmap_compose. }
  done.
Qed.

(** *** [create_header_map] *)

(** The inner loop: a field that has a column keeps it, a field without
    one takes this column when one of its keywords occurs in the cell. *)
Lemma claim_fields_lookup (low_val : str) (idx : nat)
    (entries : list (str * list str)) (h_map : gmap str nat) (k : str) :
  foldl (claim_field low_val idx) h_map entries !! k
  = match h_map !! k with
    | Some i => Some i
    | None => if field_matches entries k low_val then Some idx else None
    end.
Proof.
  revert h_map; induction entries as [|[k' kws] entries IH]; intros h_map; simpl.
  - by destruct (h_map !! k).
  - rewrite IH. unfold claim_field; simpl.
    destruct (decide (k' = k)) as [->|Hne].
    + rewrite (bool_decide_true (k = k)) by done. simpl.
      destruct (h_map !! k) as [i|] eqn:Hk.
      * rewrite (bool_decide_false (Some i = None)) by done. simpl. by rewrite Hk.
      * rewrite (bool_decide_true (None = None)) by done. simpl.
        destruct (any_in kws low_val); simpl; [by rewrite lookup_insert_eq|by rewrite Hk].
    + rewrite (bool_decide_false (k' = k)) by done. simpl.
      destruct (_ && _); [|done]. by rewrite lookup_insert_ne.
Qed.

(** The outer loop, started at column [n] with the map [h_map]. *)
Lemma scan_cells_lookup (row : list str) (n : nat) (h_map : gmap str nat) (k : str) :
  foldl scan_cell h_map (zip (seq n (length row)) row) !! k
  = match h_map !! k with
    | Some i => Some i
    | None =>
        (fun r => n + r.1) <$>
          list_find (fun val => field_matches mapping_keywords k (lower val) = true) row
    end.
Proof.
  revert n h_map; induction row as [|val row IH]; intros n h_map.
  - simpl. by destruct (h_map !! k).
  - cbn [length seq zip zip_with foldl list_find]. rewrite IH.
    unfold scan_cell. cbn [fst snd]. rewrite claim_fields_lookup.
    destruct (h_map !! k) as [i|]; [done|].
    case_decide as Hm.
    + rewrite Hm. simpl. f_equal. lia.
    + apply not_true_is_false in Hm. rewrite Hm.
      destruct (list_find _ row) as [[j v]|]; simpl; [f_equal; lia|done].
Qed.

Lemma mapping_keywords_NoDup : NoDup (mapping_keywords.*1).
Proof. apply (bool_decide_unpack _). by vm_compute. Qed.

Lemma field_matches_entry (entries : list (str * list str)) k kws low_val :
  NoDup (entries.*1) → (k, kws) ∈ entries →
  field_matches entries k low_val = any_in kws low_val.
Proof.
  unfold field_matches.
  induction entries as [|[k' kws'] entries IH]; simpl; intros Hnd Hin.
  - by apply elem_of_nil in Hin.
  - apply NoDup_cons in Hnd as [Hk' Hnd].
    apply elem_of_cons in Hin as [[= <- <-]|Hin].
    + rewrite bool_decide_true by done. simpl.
      destruct (any_in kws low_val); [done|]. simpl.
      apply not_true_is_false. intros (e & He & Hb)%existsb_exists.
      apply andb_true_iff in Hb as [Hb _]. apply bool_decide_eq_true_1 in Hb.
      apply Hk'. apply list_elem_of_fmap. exists e. split; [done|].
      by apply list_elem_of_In.
    + rewrite bool_decide_false.
      * simpl. by apply IH.
      * intros ->. apply Hk'. apply list_elem_of_fmap. by exists (k, kws).
Qed.

(** C3, as the program has it. Every field gets the first column, from the
    left, whose lower-cased text holds one of the field's keywords, and no
    column when there is none; the fields are served independently of
    each other, so one column can serve several fields. A name that is not
    a field gets no column. *)
Theorem header_map_first_column (row_values : list str) :
  (∀ k kws, (k, kws) ∈ mapping_keywords →
     create_header_map row_values !! k
     = fst <$> list_find (fun val => any_in kws (lower val) = true) row_values)
  ∧ (∀ k, k ∉ mapping_keywords.*1 → create_header_map row_values !! k = None).
Proof.
  split.
  - intros k kws Hin. unfold create_header_map, enumerate.
    rewrite scan_cells_lookup, lookup_empty.
    erewrite (list_find_ext _ (fun val => any_in kws (lower val) = true)).
    + by destruct (list_find _ row_values) as [[j v]|].
    + intros val. by rewrite (field_matches_entry _ _ kws) by
        (done || apply mapping_keywords_NoDup).
  - intros k Hk. unfold create_header_map, enumerate.
    rewrite scan_cells_lookup, lookup_empty.
    destruct (list_find _ row_values) as [[j v]|] eqn:E; [|done].
    apply list_find_Some in E as (_ & (e & He & Hb)%existsb_exists & _).
    apply andb_true_iff in Hb as [Hb _]. apply bool_decide_eq_true_1 in Hb.
    exfalso. apply Hk. apply list_elem_of_fmap. exists e. split; [done|].
    by apply list_elem_of_In.
Qed.


(** *** The main loop, row by row *)

Lemma collect_row_order_no g st row_values cur :
  current_section st = Some cur →
  order_no <$> current_section (collect_row g st row_values) = Some (order_no cur).
Proof.
  intros Hcur. unfold collect_row. destruct (scan_header_map st); [|by rewrite Hcur].
  destruct (truthy_map _); [|by rewrite Hcur].
  destruct (_ && _); [|by rewrite Hcur]. simpl. by rewrite Hcur.
Qed.

(** C1, as the program has it. A header row only replaces the header map,
    of the loop and of the active section: it opens, switches and emits
    nothing, whatever its text holds. The order-number search is made on
    the rows that are not header rows: there a token that differs from the
    active order number, or any token when no section is active, closes
    the active section and opens one that carries the token. *)
Theorem order_search_skips_header_rows (g : str) (st : ScanState) (row_values : list str) :
  let row_str := join (u " ") row_values in
  let st' := scan_row g st row_values in
  (is_header_row row_str = true →
     sections st' = sections st
     ∧ current_section st' = with_header_map (create_header_map row_values) <$> current_section st
     ∧ order_no <$> current_section st' = order_no <$> current_section st
     ∧ data_rows <$> current_section st' = data_rows <$> current_section st
     ∧ scan_header_map st' = Some (create_header_map row_values))
  ∧ (is_header_row row_str = false →
     ∀ tok, Re.search order_no_pattern row_str = Some tok →
            (∀ cur, current_section st = Some cur → order_no cur ≠ tok) →
            order_no <$> current_section st' = Some tok
            ∧ sections st' = emit_section (sections st) (current_section st)).
Proof.
  intros row_str st'. subst st'. unfold scan_row. fold row_str. split; intros Hh; rewrite Hh.
  - simpl. repeat split; by destruct (current_section st).
  - intros tok Htok Hne. rewrite collect_row_sections.
    assert (detect_order st row_str
            = {| sections := emit_section (sections st) (current_section st);
                 current_section :=
                   Some (new_section tok (default [] (Re.search date_pattern row_str))
                           (scan_header_map st));
                 scan_header_map := scan_header_map st |}) as ->.
    { unfold detect_order. rewrite Htok.
      rewrite (bool_decide_false (tok = [])) by by eapply order_no_nonempty.
      destruct (current_section st) as [cur|] eqn:Hcur; simpl; [|done].
      rewrite bool_decide_true; [done|]. intros ->. by eapply Hne. }
    split; [|done].
    by apply (collect_row_order_no g _ row_values
                (new_section tok (default [] (Re.search date_pattern row_str))
                   (scan_header_map st))).
Qed.

(** *** The implicit section *)

Lemma find_global_id_first (row_strs : list str) :
  find_global_id row_strs
  = default UNKNOWN_ID (head (omap (Re.search order_no_pattern) row_strs)).
Proof.
  induction row_strs as [|row_str rest IH]; simpl; [done|].
  by destruct (Re.search order_no_pattern row_str).
Qed.

(** C2, as the program has it. The order number of an implicit section is
    [global_id]: the token of the first row of the whole frame, in row
    order, that holds one (header rows and the rows after the current one
    included), and the sentinel when no row of the frame holds a token. *)
Theorem implicit_section_uses_global_id (df : DataFrame) :
  let global_id := find_global_id (raw_row_str df <$> cells df) in
  global_id
    = default UNKNOWN_ID
        (head (omap (Re.search order_no_pattern) (raw_row_str df <$> cells df)))
  ∧ (df_empty df = false →
     parse_frame df
     = let st := foldl (scan_row global_id) initial_state (stripped_row df <$> cells df) in
       emit_section (sections st) (current_section st))
  ∧ ∀ (st : ScanState) (row_values : list str) (h : gmap str nat),
      let row_str := join (u " ") row_values in
      let item_data := map_row_to_std row_values h in
      let p_name := default [] (item_data !! u "品名") in
      current_section st = None →
      scan_header_map st = Some h → h ≠ ∅ →
      is_header_row row_str = false →
      Re.search order_no_pattern row_str = None →
      p_name ≠ [] → p_name ∉ HEADER_LABELS →
      current_section (scan_row global_id st row_values)
      = Some {| order_no := global_id; date := []; info := inquiry_info item_data;
                header_map := Some h; data_rows := [item_record item_data] |}.
Proof.
  intros global_id. split; [apply find_global_id_first|]. split.
  - intros He. unfold parse_frame. by rewrite He.
  - intros st row_values h row_str item_data p_name Hcur Hh Hne Hhdr Hno Hp Hlab.
    unfold scan_row. fold row_str. rewrite Hhdr.
    unfold detect_order. rewrite Hno.
    unfold collect_row. rewrite Hh. unfold truthy_map.
    rewrite (bool_decide_false (h = ∅)) by done. cbn [negb].
    fold item_data. fold p_name.
    rewrite (bool_decide_false (p_name = [])) by done.
    unfold str_in. rewrite (bool_decide_false (p_name ∈ HEADER_LABELS)) by done.
    cbn [negb andb]. rewrite Hcur. cbn [default new_section info order_no date
      header_map data_rows app]. by rewrite bool_decide_true.
Qed.


(** *** The loader *)

Lemma read_csv_any_fails pd file_path encs :
  (∀ enc, enc ∈ encs → read_csv pd file_path enc = Raise) →
  read_csv_any pd file_path encs = None.
Proof.
  induction encs as [|enc encs IH]; intros H; simpl; [done|].
  rewrite (H enc) by apply list_elem_of_here.
  apply IH. intros enc' Hin. apply H. by apply list_elem_of_further.
Qed.

(** C7, as the program has it. The loader answers every path with a
    frame. When every read it attempts fails (for a [.csv] path each
    candidate encoding and then [read_excel], for another path
    [read_excel]) the frame is the empty one; a failure of all the CSV
    encodings alone leaves the answer to [read_excel]. An empty frame
    gives no section. *)
Theorem failed_load_yields_no_sections (pd : Pandas) (file_path : str) :
  (read_excel_smart_try pd file_path = Raise → read_excel_smart pd file_path = empty_frame)
  ∧ ((endswith file_path (u ".csv") = true →
      ∀ enc, enc ∈ csv_encodings → read_csv pd file_path enc = Raise) →
     read_excel pd file_path = Raise →
     read_excel_smart pd file_path = empty_frame
     ∧ parse_file_to_sections pd file_path = [])
  ∧ ((endswith file_path (u ".csv") = true →
      ∀ enc, enc ∈ csv_encodings → read_csv pd file_path enc = Raise) →
     read_excel_smart pd file_path = try_except (read_excel pd file_path) empty_frame)
  ∧ (df_empty (read_excel_smart pd file_path) = true →
     parse_file_to_sections pd file_path = []).
Proof.
  assert ((endswith file_path (u ".csv") = true →
           ∀ enc, enc ∈ csv_encodings → read_csv pd file_path enc = Raise) →
          read_excel_smart_try pd file_path = read_excel pd file_path) as Hfall.
  { intros Hcsv. unfold read_excel_smart_try.
    destruct (endswith file_path (u ".csv")); [|done].
    by rewrite read_csv_any_fails by by apply Hcsv. }
  split; [|split; [|split]].
  - unfold read_excel_smart. by intros ->.
  - intros Hcsv Hxl. unfold parse_file_to_sections, read_excel_smart.
    by rewrite (Hfall Hcsv), Hxl.
  - intros Hcsv. unfold read_excel_smart. by rewrite (Hfall Hcsv).
  - intros He. unfold parse_file_to_sections, parse_frame. by rewrite He.
Qed.

(** *** The export loop *)

Lemma first_occurrences_cons earlier id row rows :
  first_occurrences earlier id (row :: rows)
  = (if bool_decide (sig_of id row ∈ earlier) then [] else [row])
    ++ first_occurrences (earlier ++ [sig_of id row]) id rows.
Proof.
  unfold first_occurrences. rewrite imap_cons. cbn [mjoin list_join take fmap list_fmap].
  rewrite app_nil_r. f_equal. f_equal. apply imap_ext. intros j r _. simpl.
  by rewrite <-app_assoc.
Qed.

Lemma items_written_app st rows :
  omap (fun w : nat * sheet_row => match w.2 with ItemRow cs => Some cs | _ => None end)
    (ws st ++ rows)
  = items_written st
    ++ omap (fun w : nat * sheet_row => match w.2 with ItemRow cs => Some cs | _ => None end) rows.
Proof. unfold items_written. apply omap_app. Qed.

(** The inner loop against its description; [seen_rows] holds the
    signatures in [earlier]. *)
Lemma write_items_spec id rows st n earlier :
  (∀ x, x ∈ seen_rows st ↔ x ∈ earlier) →
  let acc := foldl (write_item id) (st, n) rows in
  (∀ x, x ∈ seen_rows acc.1 ↔ x ∈ earlier ++ (sig_of id <$> rows))
  ∧ items_written acc.1
    = items_written st
      ++ imap (fun j => item_cells (n + j)) (first_occurrences earlier id rows)
  ∧ acc.2 = n + length (first_occurrences earlier id rows).
Proof.
  revert st n earlier; induction rows as [|row rows IH]; intros st n earlier Hseen.
  - simpl. rewrite !app_nil_r. split; [done|]. split; [done|].
    unfold first_occurrences. simpl. lia.
  - cbn [foldl]. rewrite first_occurrences_cons.
    destruct (decide (sig_of id row ∈ seen_rows st)) as [Hin|Hin].
    + assert (write_item id (st, n) row = (st, n)) as ->.
      { unfold write_item. simpl. by rewrite bool_decide_true. }
      rewrite bool_decide_true by by apply Hseen.
      destruct (IH st n (earlier ++ [sig_of id row])) as (H1 & H2 & H3).
      { intros x. rewrite elem_of_app, list_elem_of_singleton, <-Hseen.
        split; [tauto|]. by intros [?| ->]. }
      split; [|split]; [|done..].
      intros x. by rewrite H1, <-app_assoc.
    + set (st1 := {| seen_rows := {[sig_of id row]} ∪ seen_rows st;
                     ws := ws st ++ [(curr_row st, ItemRow (item_cells n row))];
                     curr_row := S (curr_row st) |}).
      assert (write_item id (st, n) row = (st1, S n)) as ->.
      { unfold write_item. simpl. by rewrite bool_decide_false. }
      rewrite bool_decide_false by by rewrite <-Hseen.
      destruct (IH st1 (S n) (earlier ++ [sig_of id row])) as (H1 & H2 & H3).
      { intros x. simpl.
        rewrite elem_of_union, elem_of_singleton, Hseen, elem_of_app, list_elem_of_singleton.
        tauto. }
      split; [|split].
      * intros x. by rewrite H1, <-app_assoc.
      * rewrite H2. unfold items_written at 1. cbn [ws st1].
        rewrite items_written_app. simpl.
        rewrite <-app_assoc. f_equal. simpl. rewrite Nat.add_0_r. f_equal.
        apply imap_ext. intros j r _. simpl. f_equal. lia.
      * rewrite H3. simpl. lia.
Qed.

Lemma export_section_spec st s earlier :
  (∀ x, x ∈ seen_rows st ↔ x ∈ earlier) →
  (∀ x, x ∈ seen_rows (export_section st s)
        ↔ x ∈ earlier ++ (sig_of (order_no s) <$> data_rows s))
  ∧ items_written (export_section st s)
    = items_written st
      ++ imap item_cells (first_occurrences earlier (order_no s) (data_rows s)).
Proof.
  intros Hseen. unfold export_section.
  match goal with |- context [foldl _ (?s1, 0) _] =>
    destruct (write_items_spec (order_no s) (data_rows s) s1 0 earlier) as (H1 & H2 & _) end;
    [done|].
  split; [done|]. unfold items_written at 1. cbn [ws]. fold (items_written
    (foldl (write_item (order_no s))
       ({| seen_rows := seen_rows st;
           ws := ws st ++ [(curr_row st, InfoRow (date s) (info s) (order_no s))];
           curr_row := S (curr_row st) |}, 0) (data_rows s)).1).
  rewrite H2. unfold items_written. cbn [ws]. rewrite omap_app. simpl.
  by rewrite app_nil_r.
Qed.

Lemma export_sections_spec secs st earlier :
  (∀ x, x ∈ seen_rows st ↔ x ∈ earlier) →
  (∀ x, x ∈ seen_rows (foldl export_section st secs)
        ↔ x ∈ earlier ++ (secs ≫= fun s => sig_of (order_no s) <$> data_rows s))
  ∧ ∀ rest,
      items_written (foldl export_section st secs) ++ expected_items
        (earlier ++ (secs ≫= fun s => sig_of (order_no s) <$> data_rows s)) rest
      = items_written st ++ expected_items earlier (secs ++ rest).
Proof.
  revert st earlier; induction secs as [|s secs IH]; intros st earlier Hseen.
  - simpl. by rewrite app_nil_r.
  - cbn [foldl]. destruct (export_section_spec st s earlier Hseen) as [H1 H2].
    destruct (IH _ _ H1) as [H3 H4].
    rewrite bind_cons, app_assoc. split; [done|].
    intros rest. rewrite H4, H2. cbn [app expected_items]. by rewrite <-app_assoc.
Qed.

Lemma run_files_spec pd abort files idx st earlier :
  (∀ x, x ∈ seen_rows st ↔ x ∈ earlier) →
  items_written (run_files pd abort idx files st)
  = items_written st ++ expected_items earlier (sections_read pd abort idx files).
Proof.
  revert idx st earlier; induction files as [|fpath files IH]; intros idx st earlier Hseen.
  - simpl. by rewrite app_nil_r.
  - simpl. destruct (abort idx); [simpl; by rewrite app_nil_r|].
    destruct (export_sections_spec (parse_file_to_sections pd fpath) st earlier Hseen)
      as [H1 H2].
    rewrite (IH _ _ _ H1). apply H2.
Qed.

(** C6. The item rows that a batch writes are, section by section over all
    the files read, the rows whose signature (order number, item name,
    spec, quantity as text) has not occurred in an earlier row of the
    batch, numbered from 1 within their section: a row that repeats an
    earlier signature is neither written nor numbered, whatever its unit
    price, and the set of seen signatures is carried from the first
    section of the first file to the last. *)
Theorem export_drops_repeated_signatures (pd : Pandas) (abort : nat → bool)
    (files : list str) :
  items_written (run pd abort files)
    = expected_items [] (sections_read pd abort 0 files)
  ∧ (∀ id row (price : value), sig_of id (<[u "单价" := price]> row) = sig_of id row)
  ∧ (∀ (st : ExportState) n id row,
       sig_of id row ∈ seen_rows st → write_item id (st, n) row = (st, n))
  ∧ (∀ (st : ExportState) n id row,
       sig_of id row ∈ seen_rows (write_item id (st, n) row).1).
Proof.
  split; [|split; [|split]].
  - unfold run. rewrite (run_files_spec _ _ _ _ _ []); [done|].
    intros x. simpl. rewrite elem_of_empty, elem_of_nil. done.
  - intros id row price. unfold sig_of, field.
    by rewrite !lookup_insert_ne by (by vm_compute).
  - intros st n id row Hin. unfold write_item. simpl. by rewrite bool_decide_true.
  - intros st n id row. unfold write_item. simpl.
    case_bool_decide; simpl; [done|]. apply elem_of_union_l. by apply elem_of_singleton.
Qed.


End Properties.

(* ===================================================================== *)
(** ** Further properties *)
(* ===================================================================== *)

(** *** Texts *)

Section TextFacts.

Lemma startswith_spec (p s : str) :
  startswith p s = true ↔ ∃ post, s = p ++ post.
Proof.
  revert s; induction p as [|c p IH]; intros s; simpl.
  - split; [by exists s|done].
  - destruct s as [|d s].
    + split; [done|]. by intros [post ?].
    + rewrite andb_true_iff, IH, N.eqb_eq. split.
      * intros [-> [post ->]]. by exists post.
      * intros [post [= -> ->]]. split; [done|]. by exists post.
Qed.

(** [needle in hay] holds exactly when [hay] has [needle] as a piece. *)
Lemma contains_spec (needle hay : str) :
  contains needle hay = true ↔ ∃ pre post, hay = pre ++ needle ++ post.
Proof.
  induction hay as [|c hay IH]; simpl.
  - rewrite orb_false_r, startswith_spec. split.
    + intros [post ->]. by exists [], post.
    + intros (pre & post & H). symmetry in H.
      apply app_eq_nil in H as [-> H]. by exists post.
  - rewrite orb_true_iff, startswith_spec, IH. split.
    + intros [[post ->]|(pre & post & ->)].
      * by exists [], post.
      * by exists (c :: pre), post.
    + intros ([|d pre] & post & H); simpl in H.
      * left. by exists post.
      * injection H as -> ->. right. by exists pre, post.
Qed.

Lemma contains_trans (a b c : str) :
  contains a b = true → contains b c = true → contains a c = true.
Proof.
  rewrite !contains_spec. intros (p1 & q1 & ->) (p2 & q2 & ->).
  exists (p2 ++ p1), (q1 ++ q2). by rewrite <-!app_assoc.
Qed.

Lemma contains_false_trans (a b c : str) :
  contains a b = true → contains a c = false → contains b c = false.
Proof.
  intros Hab Hac. apply not_true_is_false. intros Hbc.
  by rewrite (contains_trans _ _ _ Hab Hbc) in Hac.
Qed.

(** A piece without the character [x] lies on one side of an [x]. *)
Lemma contains_split (k a b : str) (x : char) :
  x ∉ k → contains k (a ++ x :: b) = true →
  contains k a = true ∨ contains k b = true.
Proof.
  rewrite !contains_spec. intros Hx (pre & post & H).
  apply app_eq_app in H as [l [[Ha H]|[Hpre H]]].
  - (* the piece starts inside [a] *)
    apply app_eq_app in H as [l' [[Hk H]|[Hl H]]].
    + destruct l' as [|y l']; simpl in H.
      * left. exists pre, []. rewrite Ha, Hk. by rewrite !app_nil_r.
      * injection H as <- _. exfalso. apply Hx. rewrite Hk.
        apply elem_of_app. right. apply list_elem_of_here.
    + left. exists pre, l'. by rewrite Ha, Hl.
  - (* the piece starts after [a] *)
    destruct l as [|y l]; simpl in H.
    + destruct k as [|y k]; simpl in H.
      * left. exists a, []. by rewrite !app_nil_r.
      * injection H as <- _. exfalso. apply Hx, list_elem_of_here.
    + injection H as _ ->. right. by exists l, post.
Qed.

(** A piece of the joined row text that has no separator character lies in
    one of the cells. *)
Lemma contains_join (k : str) (x : char) (parts : list str) :
  x ∉ k → k ≠ [] → contains k (join [x] parts) = true →
  ∃ part, part ∈ parts ∧ contains k part = true.
Proof.
  intros Hx Hk. induction parts as [|p parts IH]; simpl.
  - destruct k; [done|]. simpl. done.
  - destruct parts as [|p' parts].
    + intros H. exists p. split; [apply list_elem_of_here|done].
    + intros H. apply (contains_split k p _ x Hx) in H as [H|H].
      * exists p. split; [apply list_elem_of_here|done].
      * destruct (IH H) as (part & Hin & Hc). exists part.
        split; [by apply list_elem_of_further|done].
Qed.

Lemma any_in_spec (keys : list str) (s : str) :
  any_in keys s = true ↔ ∃ k, k ∈ keys ∧ contains k s = true.
Proof.
  unfold any_in. rewrite existsb_exists. split; intros (k & Hk & Hc); exists k;
    (split; [by apply list_elem_of_In|done]).
Qed.

End TextFacts.

(** *** [normalize_unit] *)

Section UnitFacts.

Lemma normalize_unit_in_range (table : list (str * str)) (unit : str) :
  (any_in (table.*1) unit = false ∧ normalize_unit_in table unit = unit)
  ∨ (any_in (table.*1) unit = true ∧ normalize_unit_in table unit ∈ table.*2).
Proof.
  induction table as [|[k v] table IH]; simpl; [by left|].
  destruct (contains k unit); simpl.
  - right. split; [done|]. apply list_elem_of_here.
  - destruct IH as [[H1 H2]|[H1 H2]]; [by left|].
    right. split; [done|]. by apply list_elem_of_further.
Qed.

(** X1. [normalize_unit] returns its argument unchanged when no key of
    [UNIT_MAP] occurs in it, and otherwise one of the four canonical units
    个, 台, kg, g. *)
Theorem normalize_unit_range (unit : str) :
  (any_in (UNIT_MAP.*1) unit = false ∧ normalize_unit unit = unit)
  ∨ (any_in (UNIT_MAP.*1) unit = true
     ∧ normalize_unit unit ∈ [u "个"; u "台"; u "kg"; u "g"]).
Proof.
  destruct (normalize_unit_in_range UNIT_MAP unit) as [H|[H1 H2]]; [by left|].
  right. split; [done|]. unfold normalize_unit.
  assert (UNIT_MAP.*2 ⊆ [u "个"; u "台"; u "kg"; u "g"]) as Hsub.
  { apply (bool_decide_unpack _). by vm_compute. }
  by apply Hsub.
Qed.

(** X2. The entries 個/pcs, 臺/台 and 公斤/公斤 of [UNIT_MAP] never decide a
    result: each of these keys holds an earlier key of the table, which
    answers first. The table without them normalises every text alike. *)
Theorem unit_map_dead_entries (unit : str) :
  normalize_unit unit = normalize_unit_in UNIT_MAP_SHORT unit.
Proof.
  unfold normalize_unit, UNIT_MAP, UNIT_MAP_SHORT. cbn [normalize_unit_in].
  destruct (contains (u "個") unit) eqn:E1; [done|].
  rewrite (contains_false_trans (u "個") (u "個/pcs") unit) by (done || by vm_compute).
  destruct (contains (u "臺") unit) eqn:E2; [done|].
  rewrite (contains_false_trans (u "臺") (u "臺/台") unit) by (done || by vm_compute).
  destruct (contains (u "公斤") unit) eqn:E3; [done|].
  destruct (contains (u "千克") unit); [done|].
  destruct (contains (u "g") unit); [done|].
  by rewrite (contains_false_trans (u "公斤") (u "公斤/公斤") unit) by (done || by vm_compute).
Qed.

(** X3. A unit text that holds the letter g and none of 個, 臺, 公斤, 千克
    is normalised to g, whatever else it holds: kg, the unit that 公斤 and
    千克 are normalised to, is itself normalised to g. *)
Theorem unit_with_g_becomes_g (unit : str) :
  contains (u "g") unit = true →
  any_in [u "個"; u "臺"; u "公斤"; u "千克"] unit = false →
  normalize_unit unit = u "g".
Proof.
  intros Hg Hnone. unfold normalize_unit, UNIT_MAP. cbn [normalize_unit_in].
  unfold any_in in Hnone. cbn [existsb] in Hnone.
  apply orb_false_elim in Hnone as [E1 Hnone].
  apply orb_false_elim in Hnone as [E2 Hnone].
  apply orb_false_elim in Hnone as [E3 Hnone].
  apply orb_false_elim in Hnone as [E4 _].
  rewrite E1, E2, E3, E4, Hg.
  rewrite (contains_false_trans (u "個") (u "個/pcs") unit) by (done || by vm_compute).
  by rewrite (contains_false_trans (u "臺") (u "臺/台") unit) by (done || by vm_compute).
Qed.

End UnitFacts.

(** *** Invariants of the scan *)

Section ScanFacts.
Context `{B : Builtins}.

(** A property that every step keeps holds after the loop. *)
Lemma scan_rows_invariant (I : ScanState → Prop) g rows st :
  (∀ st' row, row ∈ rows → I st' → I (scan_row g st' row)) →
  I st → I (foldl (scan_row g) st rows).
Proof.
  revert st; induction rows as [|row rows IH]; intros st Hstep Hst; simpl; [done|].
  apply IH.
  - intros st' row' Hin. apply Hstep. by apply list_elem_of_further.
  - apply Hstep; [apply list_elem_of_here|done].
Qed.

Lemma inquiry_info_nonempty (item_data : gmap str str) : inquiry_info item_data ≠ [].
Proof.
  unfold inquiry_info.
  destruct (List.filter _ _) as [|p parts] eqn:E; [by vm_compute|].
  assert (p ≠ []) as Hp.
  { assert (In p (p :: parts)) as Hin by (by left).
    rewrite <-E in Hin. apply filter_In in Hin as [_ Hin].
    apply negb_true_iff in Hin. by apply bool_decide_eq_false_1 in Hin. }
  destruct p as [|c p]; [done|]. by destruct parts.
Qed.

(** X4. A frame without a row that passes the header test gives no section
    at all, whatever order numbers and items it holds: without a header map
    no row is projected, and a section without records is not returned. *)
Theorem no_header_row_no_sections (df : DataFrame) :
  (∀ row, row ∈ cells df →
          is_header_row (join (u " ") (stripped_row df row)) = false) →
  parse_frame df = [].
Proof.
  intros Hrows. unfold parse_frame. destruct (df_empty df); [done|].
  match goal with |- context [foldl (scan_row ?g) ?st0 ?rows] =>
    pose proof (scan_rows_invariant
      (fun st => sections st = [] ∧ scan_header_map st = None
                 ∧ ∀ cur, current_section st = Some cur → data_rows cur = [])
      g rows st0) as Hinv end.
  destruct Hinv as (Hs & _ & Hc).
  - intros st row Hin (Hs & Hh & Hc).
    apply list_elem_of_fmap in Hin as (row0 & -> & Hin0).
    unfold scan_row. rewrite (Hrows _ Hin0).
    unfold collect_row, detect_order.
    destruct (Re.search order_no_pattern _) as [tok|]; [|by rewrite Hh].
    destruct (_ && _); [|by rewrite Hh]. simpl. rewrite Hh.
    split; [|split; [done|]].
    + unfold emit_section. destruct (current_section st) as [cur|]; [|done].
      by rewrite bool_decide_true by by apply Hc.
    + by intros cur [= <-].
  - split; [done|]. split; [done|]. by intros cur [=].
  - rewrite Hs. unfold emit_section.
    destruct (current_section _) as [cur|]; [|done].
    by rewrite bool_decide_true by by apply Hc.
Qed.

(** X5. The information text of every section returned is not empty and
    is the one derived from the row that gave the section its first record:
    the rows after it never change it. *)
Theorem section_info_from_first_record (df : DataFrame) :
  Forall (fun s =>
    info s ≠ []
    ∧ ∃ row_values h_map,
        row_values ∈ stripped_row df <$> cells df
        ∧ head (data_rows s) = Some (item_record (map_row_to_std row_values h_map))
        ∧ info s = inquiry_info (map_row_to_std row_values h_map))
    (parse_frame df).
Proof.
  unfold parse_frame. destruct (df_empty df); [done|].
  match goal with |- context [foldl (scan_row ?g) ?st0 ?rows] =>
    set (Q := fun s : OrderSection =>
           info s ≠ []
           ∧ ∃ row_values h_map,
               row_values ∈ rows
               ∧ head (data_rows s) = Some (item_record (map_row_to_std row_values h_map))
               ∧ info s = inquiry_info (map_row_to_std row_values h_map));
    pose proof (scan_rows_invariant
      (fun st => Forall Q (sections st)
                 ∧ ∀ cur, current_section st = Some cur →
                          (data_rows cur = [] ∧ info cur = []) ∨ Q cur)
      g rows st0) as Hinv end.
  assert (∀ secs cur,
            Forall Q secs →
            (∀ c, cur = Some c → (data_rows c = [] ∧ info c = []) ∨ Q c) →
            Forall Q (emit_section secs cur)) as Hemit.
  { intros secs cur Hsecs Hcur. unfold emit_section. destruct cur as [c|]; [|done].
    case_bool_decide as Hd; [done|]. apply Forall_app. split; [done|].
    apply Forall_singleton. destruct (Hcur c eq_refl) as [[Hd' _]|HQ]; done. }
  destruct Hinv as [Hs Hc].
  - intros st row Hin [Hs Hc]. unfold scan_row. destruct (is_header_row _).
    { split; simpl; [done|]. intros cur Heq.
      destruct (current_section st) as [c0|]; [|done].
      injection Heq as <-. exact (Hc c0 eq_refl). }
    assert (Forall Q (sections (detect_order st (join (u " ") row)))
            ∧ ∀ cur, current_section (detect_order st (join (u " ") row)) = Some cur →
                     (data_rows cur = [] ∧ info cur = []) ∨ Q cur) as [Hs' Hc'].
    { unfold detect_order. destruct (Re.search order_no_pattern _); [|done].
      destruct (_ && _); [|done]. simpl. split; [by apply Hemit|].
      intros cur [= <-]. by left. }
    unfold collect_row. destruct (scan_header_map _) as [h|]; [|done].
    destruct (truthy_map _); [|done]. destruct (_ && _); [|done].
    split; simpl; [done|]. intros cur [= <-]. right.
    destruct (current_section (detect_order st (join (u " ") row))) as [c0|] eqn:E0;
      simpl.
    + destruct (Hc' c0 eq_refl) as [[Hd Hi]|(Hi & r0 & h0 & Hin0 & Hhd & Hinfo)].
      * rewrite Hd, Hi. rewrite bool_decide_true by done. simpl.
        split; [apply inquiry_info_nonempty|]. by exists row, h.
      * rewrite bool_decide_false by done. split; simpl; [done|].
        exists r0, h0. split; [done|]. split; [|done].
        destruct (data_rows c0); simplify_eq/=. done.
    + split; simpl; [apply inquiry_info_nonempty|]. by exists row, h.
  - split; simpl; [done|]. by intros cur [=].
  - by apply Hemit.
Qed.

(** X6. Every section returned either carries [global_id] and no date (an
    implicit section), or carries the order-number token found in a row that
    is not a header row, with the first date of that same row or, when the
    row holds none, no date. *)
Theorem section_order_no_and_date (df : DataFrame) :
  let global_id := find_global_id (raw_row_str df <$> cells df) in
  Forall (fun s =>
    (order_no s = global_id ∧ date s = [])
    ∨ ∃ row_values,
        row_values ∈ stripped_row df <$> cells df
        ∧ is_header_row (join (u " ") row_values) = false
        ∧ Re.search order_no_pattern (join (u " ") row_values) = Some (order_no s)
        ∧ date s = default [] (Re.search date_pattern (join (u " ") row_values)))
    (parse_frame df).
Proof.
  intros global_id. unfold parse_frame. destruct (df_empty df); [done|].
  fold global_id.
  match goal with |- context [foldl (scan_row ?g) ?st0 ?rows] =>
    set (Q := fun s : OrderSection =>
           (order_no s = global_id ∧ date s = [])
           ∨ ∃ row_values,
               row_values ∈ rows
               ∧ is_header_row (join (u " ") row_values) = false
               ∧ Re.search order_no_pattern (join (u " ") row_values) = Some (order_no s)
               ∧ date s = default [] (Re.search date_pattern (join (u " ") row_values)));
    pose proof (scan_rows_invariant
      (fun st => Forall Q (sections st) ∧ ∀ cur, current_section st = Some cur → Q cur)
      g rows st0) as Hinv end.
  assert (∀ secs cur, Forall Q secs → (∀ c, cur = Some c → Q c) →
                      Forall Q (emit_section secs cur)) as Hemit.
  { intros secs cur Hsecs Hcur. unfold emit_section. destruct cur as [c|]; [|done].
    case_bool_decide; [done|]. apply Forall_app. split; [done|].
    apply Forall_singleton. by apply Hcur. }
  destruct Hinv as [Hs Hc].
  - intros st row Hin [Hs Hc]. unfold scan_row.
    destruct (is_header_row (join (u " ") row)) eqn:Hhdr.
    { split; simpl; [done|]. intros cur Heq.
      destruct (current_section st) as [c0|]; [|done].
      injection Heq as <-. exact (Hc c0 eq_refl). }
    assert (Forall Q (sections (detect_order st (join (u " ") row)))
            ∧ ∀ cur, current_section (detect_order st (join (u " ") row)) = Some cur →
                     Q cur) as [Hs' Hc'].
    { unfold detect_order.
      destruct (Re.search order_no_pattern _) as [tok|] eqn:Htok; [|done].
      destruct (_ && _); [|done]. simpl. split; [by apply Hemit|].
      intros cur [= <-]. right. by exists row. }
    unfold collect_row. destruct (scan_header_map _) as [h|]; [|done].
    destruct (truthy_map _); [|done]. destruct (_ && _); [|done].
    split; simpl; [done|]. intros cur [= <-].
    destruct (current_section (detect_order st (join (u " ") row))) as [c0|] eqn:E0;
      simpl.
    + exact (Hc' c0 eq_refl).
    + by left.
  - split; simpl; [done|]. by intros cur [=].
  - by apply Hemit.
Qed.

Lemma emit_section_records_list secs cur :
  (emit_section secs cur ≫= data_rows) = (secs ≫= data_rows) ++ from_option data_rows [] cur.
Proof.
  unfold emit_section. destruct cur as [c|]; simpl; [|by rewrite app_nil_r].
  case_bool_decide as Hd.
  - by rewrite Hd, app_nil_r.
  - rewrite bind_app. simpl. by rewrite app_nil_r.
Qed.

(** A step appends at most one record, the one of its row, and leaves the
    records before it as they are. *)
Lemma scan_row_all_records g st row_values :
  all_records (scan_row g st row_values) = all_records st
  ∨ ∃ h, scan_header_map st = Some h
         ∧ is_header_row (join (u " ") row_values) = false
         ∧ all_records (scan_row g st row_values)
           = all_records st ++ [item_record (map_row_to_std row_values h)].
Proof.
  unfold scan_row. destruct (is_header_row _) eqn:Hhdr.
  { left. unfold all_records. simpl. by destruct (current_section st). }
  assert (all_records (detect_order st (join (u " ") row_values)) = all_records st
          ∧ scan_header_map (detect_order st (join (u " ") row_values))
            = scan_header_map st) as [Hrec Hh].
  { unfold detect_order. destruct (Re.search order_no_pattern _); [|done].
    destruct (_ && _); [|done]. split; [|done]. unfold all_records. simpl.
    by rewrite emit_section_records_list, app_nil_r. }
  unfold collect_row. rewrite Hh.
  destruct (scan_header_map st) as [h|]; [|by left].
  destruct (truthy_map _); [|by left]. destruct (_ && _); [|by left].
  right. exists h. split; [done|]. split; [done|].
  rewrite <-Hrec. unfold all_records. simpl.
  destruct (current_section (detect_order st (join (u " ") row_values))); simpl;
    by rewrite <-?app_assoc.
Qed.

(** X7. The scan only appends: a row adds at most one record and changes
    none of the records collected before it, so the records returned for a
    frame are at most as many as its rows. *)
Theorem scan_appends_records :
  (∀ g rows st,
     all_records st `prefix_of` all_records (foldl (scan_row g) st rows)
     ∧ length (all_records (foldl (scan_row g) st rows))
       ≤ length (all_records st) + length rows)
  ∧ (∀ df : DataFrame, length (parse_frame df ≫= data_rows) ≤ length (cells df)).
Proof.
  assert (∀ g rows st,
     all_records st `prefix_of` all_records (foldl (scan_row g) st rows)
     ∧ length (all_records (foldl (scan_row g) st rows))
       ≤ length (all_records st) + length rows) as Hscan.
  { intros g rows. induction rows as [|row rows IH]; intros st; simpl.
    - split; [done|lia].
    - destruct (IH (scan_row g st row)) as [Hp Hl].
      destruct (scan_row_all_records g st row) as [Heq|(h & _ & _ & Heq)];
        rewrite Heq in Hp, Hl.
      + split; [done|lia].
      + split.
        * etrans; [|exact Hp]. by apply prefix_app_r.
        * rewrite length_app in Hl. simpl in Hl. lia. }
  split; [done|]. intros df. unfold parse_frame. destruct (df_empty df); [simpl; lia|].
  rewrite emit_section_records_list.
  match goal with |- context [foldl (scan_row ?g) ?st0 ?rows] =>
    destruct (Hscan g rows st0) as [_ Hl] end.
  unfold all_records in Hl at 1. rewrite length_fmap in Hl. simpl in Hl. exact Hl.
Qed.

End ScanFacts.

(** *** Header rows and their maps *)

Section HeaderFacts.
Context `{B : Builtins}.

Lemma map_row_to_std_lookup (row_values : list str) (h_map : gmap str nat) (k : str) :
  map_row_to_std row_values h_map !! k
  = idx ← h_map !! k;
    val ← row_values !! idx;
    Some (if bool_decide (k = u "单位") then normalize_unit val else val).
Proof.
  unfold map_row_to_std. rewrite map_lookup_imap.
  destruct (h_map !! k) as [idx|]; simpl; [|done].
  by destruct (row_values !! idx).
Qed.

(** The column of a field is a column of the row, and its lower-cased text
    holds a keyword of the field. *)
Lemma create_header_map_column (row_values : list str) (k : str) (i : nat) :
  create_header_map row_values !! k = Some i →
  ∃ val, row_values !! i = Some val
         ∧ field_matches mapping_keywords k (lower val) = true.
Proof.
  unfold create_header_map, enumerate. rewrite scan_cells_lookup, lookup_empty.
  destruct (list_find _ row_values) as [[j v]|] eqn:E; simpl; [|done].
  intros [= <-]. apply list_find_Some in E as (Hj & Hv & _). by exists v.
Qed.

Lemma create_header_map_finds (row_values : list str) (f k cell : str) (kws : list str) :
  (f, kws) ∈ mapping_keywords → k ∈ kws → cell ∈ row_values →
  contains k (lower cell) = true →
  is_Some (create_header_map row_values !! f).
Proof.
  intros Hf Hk Hcell Hc. unfold create_header_map, enumerate.
  rewrite scan_cells_lookup, lookup_empty.
  destruct (list_find_elem_of
              (fun val => field_matches mapping_keywords f (lower val) = true)
              row_values cell Hcell) as [[j v] ->]; [|done].
  unfold field_matches. apply existsb_exists. exists (f, kws).
  split; [by apply list_elem_of_In|]. simpl. rewrite bool_decide_true by done. simpl.
  apply any_in_spec. by exists k.
Qed.

(** X8. When lower-casing keeps the five probe words of the header test
    (as it does for texts in Han characters), a row that passes the header
    test gets a header map with a column for 品名 or 规格/图号 and a column
    for 数量 or 单价: the map is never empty, so the rows below are
    projected. *)
Theorem header_row_has_header_map (row_values : list str) :
  (∀ k s, k ∈ NAME_PROBES ++ QUANTITY_PROBES →
          contains k s = true → contains k (lower s) = true) →
  is_header_row (join (u " ") row_values) = true →
  let h := create_header_map row_values in
  (is_Some (h !! u "品名") ∨ is_Some (h !! u "规格/图号"))
  ∧ (is_Some (h !! u "数量") ∨ is_Some (h !! u "单价"))
  ∧ truthy_map (Some h) = true.
Proof.
  intros Hlow Hhdr h. unfold is_header_row in Hhdr.
  apply andb_true_iff in Hhdr as [Hn Hq].
  apply any_in_spec in Hn as (kn & Hkn & Hcn).
  apply any_in_spec in Hq as (kq & Hkq & Hcq).
  assert (∀ k, k ∈ NAME_PROBES ++ QUANTITY_PROBES →
               contains k (join (u " ") row_values) = true →
               ∃ cell, cell ∈ row_values ∧ contains k (lower cell) = true) as Hcell.
  { intros k Hk Hc.
    set (space := 32%N : char).
    assert ((space ∉ k) ∧ k ≠ []) as [Hsp Hne].
    { assert (Forall (fun k : str => (space ∉ k) ∧ k ≠ []) (NAME_PROBES ++ QUANTITY_PROBES))
        as Hall by (apply (bool_decide_unpack _); by vm_compute).
      by apply (proj1 (Forall_forall _ _) Hall). }
    destruct (contains_join k space row_values Hsp Hne Hc) as (cell & Hin & Hcc).
    exists cell. split; [done|]. by apply Hlow. }
  assert (is_Some (h !! u "品名") ∨ is_Some (h !! u "规格/图号")) as H1.
  { destruct (Hcell kn) as (cell & Hin & Hc); [by apply elem_of_app; left|done|].
    apply list_elem_of_In in Hkn. simpl in Hkn.
    destruct Hkn as [<-|[<-|[<-|[]]]].
    - left. apply (create_header_map_finds row_values (u "品名") (u "品名") cell
               [u "品名"; u "物料名称"; u "product name"; u "material name"]);
        [apply (bool_decide_unpack _); by vm_compute
        |apply (bool_decide_unpack _); by vm_compute|done|done].
    - left. apply (create_header_map_finds row_values (u "品名") (u "物料名称") cell
               [u "品名"; u "物料名称"; u "product name"; u "material name"]);
        [apply (bool_decide_unpack _); by vm_compute
        |apply (bool_decide_unpack _); by vm_compute|done|done].
    - right. apply (create_header_map_finds row_values (u "规格/图号") (u "规格") cell
               [u "规格"; u "图号"; u "物料规格"; u "spec"; u "specification"; u "型号"]);
        [apply (bool_decide_unpack _); by vm_compute
        |apply (bool_decide_unpack _); by vm_compute|done|done]. }
  assert (is_Some (h !! u "数量") ∨ is_Some (h !! u "单价")) as H2.
  { destruct (Hcell kq) as (cell & Hin & Hc); [by apply elem_of_app; right|done|].
    apply list_elem_of_In in Hkq. simpl in Hkq.
    destruct Hkq as [<-|[<-|[]]].
    - left. apply (create_header_map_finds row_values (u "数量") (u "数量") cell
               [u "数量"; u "qty"; u "quantity"; u "采购数量"; u "报价数量"]);
        [apply (bool_decide_unpack _); by vm_compute
        |apply (bool_decide_unpack _); by vm_compute|done|done].
    - right. apply (create_header_map_finds row_values (u "单价") (u "单价") cell
               [u "单价"; u "price"; u "unit price"; u "报价单价"]);
        [apply (bool_decide_unpack _); by vm_compute
        |apply (bool_decide_unpack _); by vm_compute|done|done]. }
  split; [done|]. split; [done|].
  unfold truthy_map. rewrite bool_decide_false; [done|].
  intros He. rewrite He in H2. rewrite !lookup_empty in H2.
  destruct H2 as [[? [=]]|[? [=]]].
Qed.

(** X9. [map_row_to_std] leaves out a field whose column lies beyond the
    row, without failing. For a header map made from a row that is not wider
    than the data row, as in one frame, this does not happen: every field of
    the map gets the text of the data row's cell in its column (the
    normalised unit for 单位), and no other key gets a value. *)
Theorem projection_follows_header_map (header_row data_row : list str) :
  length header_row ≤ length data_row →
  (∀ k, create_header_map header_row !! k = None →
        map_row_to_std data_row (create_header_map header_row) !! k = None)
  ∧ (∀ k i, create_header_map header_row !! k = Some i →
            i < length header_row
            ∧ ∃ val, data_row !! i = Some val
                     ∧ map_row_to_std data_row (create_header_map header_row) !! k
                       = Some (if bool_decide (k = u "单位") then normalize_unit val
                               else val))
  ∧ (∀ (h_map : gmap str nat) k i,
       h_map !! k = Some i → length data_row ≤ i →
       map_row_to_std data_row h_map !! k = None).
Proof.
  intros Hlen. split; [|split].
  - intros k Hk. by rewrite map_row_to_std_lookup, Hk.
  - intros k i Hk.
    destruct (create_header_map_column _ _ _ Hk) as (v & Hv & _).
    apply lookup_lt_Some in Hv. split; [done|].
    destruct (lookup_lt_is_Some_2 data_row i) as [val Hval]; [lia|].
    exists val. split; [done|]. rewrite map_row_to_std_lookup, Hk. simpl.
    by rewrite Hval.
  - intros h_map k i Hk Hi. rewrite map_row_to_std_lookup, Hk. simpl.
    by rewrite (lookup_ge_None_2 data_row i).
Qed.

End HeaderFacts.

(** *** The records *)

Section RecordFacts.
Context `{B : Builtins}.

Lemma field_matches_key (entries : list (str * list str)) (k low_val : str) :
  field_matches entries k low_val = true → k ∈ entries.*1.
Proof.
  unfold field_matches. intros (e & He & Hm)%existsb_exists.
  apply andb_true_iff in Hm as [Hk _]. apply bool_decide_eq_true_1 in Hk as <-.
  apply list_elem_of_fmap. exists e. split; [done|]. by apply list_elem_of_In.
Qed.

(** The fields of a header map are keys of [mapping_keywords]. *)
Lemma create_header_map_keys (row_values : list str) (k : str) :
  is_Some (create_header_map row_values !! k) → k ∈ mapping_keywords.*1.
Proof.
  intros [i Hi]. unfold create_header_map, enumerate in Hi.
  rewrite scan_cells_lookup, lookup_empty in Hi.
  destruct (list_find _ row_values) as [[j v]|] eqn:E; simpl in Hi; [|done].
  apply list_find_Some in E as (_ & Hv & _). by apply field_matches_key in Hv.
Qed.

Lemma item_record_columns (item_data : gmap str str) (col : str) :
  is_Some (item_record item_data !! col) ↔ col ∈ standard_columns.
Proof.
  split.
  - intros [v Hv]. unfold item_record in Hv. apply elem_of_list_to_map_2 in Hv.
    by apply list_elem_of_fmap in Hv as (c & [= -> _] & Hc).
  - intros Hc. unfold item_record. by rewrite (filtered_lookup _ _ Hc).
Qed.

(** The record of a row: texts, but for the three columns computed. *)
Lemma item_record_shape (item_data : gmap str str) :
  let qty := safe_float (VStr <$> item_data !! u "数量") in
  item_record item_data !! u "品名" = Some (VStr (default [] (item_data !! u "品名")))
  ∧ item_record item_data !! u "序号" = Some (VStr (default [] (item_data !! u "序号")))
  ∧ item_record item_data !! u "数量"
    = Some (if is_integer qty then VInt (int_of_float qty) else VFloat qty)
  ∧ item_record item_data !! u "单价"
    = Some (VFloat (round2 (safe_float (VStr <$> item_data !! u "单价")))).
Proof.
  intros qty. split; [|split; [|split]].
  - apply item_record_text; [apply (bool_decide_unpack _)|..]; by vm_compute.
  - apply item_record_text; [apply (bool_decide_unpack _)|..]; by vm_compute.
  - unfold item_record.
    rewrite filtered_lookup by (apply (bool_decide_unpack _); by vm_compute).
    rewrite !lookup_insert_ne by (by vm_compute). by rewrite lookup_insert_eq.
  - unfold item_record.
    rewrite filtered_lookup by (apply (bool_decide_unpack _); by vm_compute).
    rewrite lookup_insert_ne by (by vm_compute). by rewrite lookup_insert_eq.
Qed.

(** X10. Every record of every section returned has exactly the eight
    standard columns, so that the export finds each column it reads. Its
    item name is a text that is neither empty nor one of the four header
    labels; its running number is the empty text, to be filled by the
    export; its quantity is an integer, or a float that is not integral; its
    unit price and its amount are floats. *)
Theorem records_follow_schema (df : DataFrame) :
  Forall (fun s =>
    Forall (fun record =>
      (∀ col, is_Some (record !! col) ↔ col ∈ standard_columns)
      ∧ (∃ name, record !! u "品名" = Some (VStr name)
                 ∧ name ≠ [] ∧ name ∉ HEADER_LABELS)
      ∧ record !! u "序号" = Some (VStr [])
      ∧ ((∃ z, record !! u "数量" = Some (VInt z))
         ∨ (∃ x, record !! u "数量" = Some (VFloat x) ∧ is_integer x = false))
      ∧ (∃ price, record !! u "单价" = Some (VFloat price))
      ∧ (∃ amount, record !! u "金额" = Some (VFloat amount)))
      (data_rows s))
    (parse_frame df).
Proof.
  unfold parse_frame. destruct (df_empty df); [done|].
  match goal with |- Forall (fun s => Forall ?P0 _) _ => set (P := P0) end.
  match goal with |- context [foldl (scan_row ?g) ?st0 ?rows] =>
    pose proof (scan_rows_invariant
      (fun st => records_satisfy P st
                 ∧ ∀ h, scan_header_map st = Some h → h !! u "序号" = None)
      g rows st0) as Hinv end.
  destruct Hinv as [[Hsecs Hcur] _].
  - intros st row _ [Hrec Hh]. unfold scan_row. destruct (is_header_row _).
    { split.
      - destruct Hrec as [Hs Hc]. split; simpl; [done|]. intros cur Heq.
        destruct (current_section st) as [c0|]; [|done].
        injection Heq as <-. exact (Hc c0 eq_refl).
      - simpl. intros h [= <-]. apply eq_None_not_Some.
        intros Hk%create_header_map_keys. revert Hk.
        apply (bool_decide_unpack (u "序号" ∉ mapping_keywords.*1)). by vm_compute. }
    pose proof (detect_order_records P st (join (u " ") row) Hrec) as [Hs' Hc'].
    assert (scan_header_map (detect_order st (join (u " ") row)) = scan_header_map st)
      as Hsame.
    { unfold detect_order. destruct (Re.search order_no_pattern _); [|done].
      by destruct (_ && _). }
    unfold collect_row. rewrite Hsame.
    destruct (scan_header_map st) as [h|] eqn:Eh; [|by rewrite Hsame].
    destruct (truthy_map _); [|by rewrite Hsame].
    destruct (_ && _) eqn:Hname; [|by rewrite Hsame].
    split; [|done]. split; simpl; [done|]. intros cur [= <-]. simpl.
    apply Forall_app. split.
    { destruct (current_section _) as [c0|]; simpl; [exact (Hc' c0 eq_refl)|done]. }
    apply Forall_singleton.
    destruct (item_record_shape (map_row_to_std row h)) as (Hn & Hi & Hq & Hp).
    apply andb_true_iff in Hname as [Hne Hlab].
    apply negb_true_iff, bool_decide_eq_false_1 in Hne.
    apply negb_true_iff, bool_decide_eq_false_1 in Hlab.
    unfold P. split; [apply item_record_columns|]. split; [by eexists|]. split.
    { rewrite Hi, map_row_to_std_lookup, (Hh h eq_refl). done. }
    split.
    { rewrite Hq. destruct (is_integer _) eqn:Hint; [left; by eexists|].
      right. by eexists. }
    split; [by eexists|]. eexists. apply item_record_amount.
  - split; [split; simpl; [done|by intros cur [=]]|]. by intros h [=].
  - apply emit_section_records; [done|]. intros s Hs. by apply Hcur.
Qed.


End RecordFacts.

(** *** The layout of the worksheet *)

Section SheetFacts.
Context `{B : Builtins}.

(** The inner loop writes the surviving rows on consecutive worksheet rows
    from [curr_row] on. *)
Lemma write_items_layout id rows st n earlier :
  (∀ x, x ∈ seen_rows st ↔ x ∈ earlier) →
  let acc := foldl (write_item id) (st, n) rows in
  ws acc.1
    = ws st ++ imap (fun j row => (curr_row st + j, ItemRow (item_cells (n + j) row)))
                 (first_occurrences earlier id rows)
  ∧ curr_row acc.1 = curr_row st + length (first_occurrences earlier id rows)
  ∧ acc.2 = n + length (first_occurrences earlier id rows).
Proof.
  revert st n earlier; induction rows as [|row rows IH]; intros st n earlier Hseen.
  - simpl. unfold first_occurrences. simpl. rewrite app_nil_r. repeat split; lia.
  - cbn [foldl]. rewrite first_occurrences_cons.
    destruct (decide (sig_of id row ∈ seen_rows st)) as [Hin|Hin].
    + assert (write_item id (st, n) row = (st, n)) as ->.
      { unfold write_item. simpl. by rewrite bool_decide_true. }
      rewrite bool_decide_true by by apply Hseen.
      apply IH. intros x.
      rewrite elem_of_app, list_elem_of_singleton, <-Hseen.
      split; [tauto|]. by intros [?| ->].
    + set (st1 := {| seen_rows := {[sig_of id row]} ∪ seen_rows st;
                     ws := ws st ++ [(curr_row st, ItemRow (item_cells n row))];
                     curr_row := S (curr_row st) |}).
      assert (write_item id (st, n) row = (st1, S n)) as ->.
      { unfold write_item. simpl. by rewrite bool_decide_false. }
      rewrite bool_decide_false by by rewrite <-Hseen.
      destruct (IH st1 (S n) (earlier ++ [sig_of id row])) as (H1 & H2 & H3).
      { intros x. simpl.
        rewrite elem_of_union, elem_of_singleton, Hseen, elem_of_app, list_elem_of_singleton.
        tauto. }
      split; [|split].
      * rewrite H1. cbn [ws st1 curr_row app imap]. rewrite <-app_assoc. simpl.
        rewrite !Nat.add_0_r. do 2 f_equal.
        apply imap_ext. intros j r _. simpl. do 3 f_equal; lia.
      * rewrite H2. simpl. lia.
      * rewrite H3. simpl. lia.
Qed.

Lemma imap_row_numbers {A} (g : nat → A → sheet_row) (l : list A) (a : nat) :
  (imap (fun j r => (a + j, g j r)) l).*1 = seq a (length l).
Proof.
  revert a g; induction l as [|r l IH]; intros a g; [done|].
  rewrite imap_cons, fmap_cons. simpl. rewrite Nat.add_0_r. f_equal.
  rewrite <-(IH (S a) (fun j => g (S j))). f_equal.
  apply imap_ext. intros j x _. simpl. f_equal. lia.
Qed.

(** The writes of one section and the row the next one starts on. *)
Lemma export_section_writes (st : ExportState) (s : OrderSection) :
  let kept := first_occurrences (elements (seen_rows st)) (order_no s) (data_rows s) in
  ws (export_section st s)
    = ws st
      ++ (curr_row st, InfoRow (date s) (info s) (order_no s))
         :: imap (fun j row => (curr_row st + 1 + j, ItemRow (item_cells j row))) kept
  ∧ curr_row (export_section st s)
    = match kept with
      | [] => curr_row st
      | _ => curr_row st + length kept + 2
      end.
Proof.
  intros kept. unfold export_section.
  match goal with |- context [foldl _ (?s1, 0) _] =>
    destruct (write_items_layout (order_no s) (data_rows s) s1 0
                (elements (seen_rows st))) as (H1 & H2 & H3) end.
  { intros x. simpl. by rewrite elem_of_elements. }
  fold kept in H1, H2, H3. cbn [ws curr_row] in *. split.
  - rewrite H1, <-app_assoc. simpl. do 2 f_equal.
    apply imap_ext. intros j r _. simpl. do 2 f_equal. lia.
  - rewrite H2, H3. destruct kept; simpl; lia.
Qed.

(** X11. The writes of one section: its information row on [curr_row] and
    below it, on consecutive rows, the rows of the section whose signature
    was not seen before, numbered from 1. When none survives, [curr_row]
    comes back to the information row, which the next section overwrites;
    otherwise it moves two rows below the last item, leaving a blank row.
    The signatures of all the rows of the section, written or not, are seen
    from then on. *)
Theorem export_section_layout (st : ExportState) (s : OrderSection) :
  let kept := first_occurrences (elements (seen_rows st)) (order_no s) (data_rows s) in
  ws (export_section st s)
    = ws st
      ++ (curr_row st, InfoRow (date s) (info s) (order_no s))
         :: imap (fun j row => (curr_row st + 1 + j, ItemRow (item_cells j row))) kept
  ∧ curr_row (export_section st s)
    = match kept with
      | [] => curr_row st
      | _ => curr_row st + length kept + 2
      end
  ∧ ∀ x, x ∈ seen_rows (export_section st s)
         ↔ x ∈ seen_rows st ∨ x ∈ sig_of (order_no s) <$> data_rows s.
Proof.
  intros kept. destruct (export_section_writes st s) as [Hws Hcur].
  split; [done|]. split; [done|]. intros x.
  destruct (export_section_spec st s (elements (seen_rows st))) as [Hseen _].
  { intros y. by rewrite elem_of_elements. }
  by rewrite Hseen, elem_of_app, elem_of_elements.
Qed.

Lemma sheet_of_app (a b : list (nat * sheet_row)) :
  sheet_of (a ++ b) = foldl (fun m w => <[w.1 := w.2]> m) (sheet_of a) b.
Proof. unfold sheet_of. by rewrite foldl_app. Qed.

Lemma writes_lookup_other (b : list (nat * sheet_row)) (m : gmap nat sheet_row) n :
  n ∉ b.*1 → foldl (fun m w => <[w.1 := w.2]> m) m b !! n = m !! n.
Proof.
  revert m; induction b as [|w b IH]; intros m Hn; simpl; [done|].
  rewrite fmap_cons in Hn. apply not_elem_of_cons in Hn as [Hne Hn].
  rewrite IH by done. by rewrite lookup_insert_ne.
Qed.

Lemma writes_lookup_written (b : list (nat * sheet_row)) (m : gmap nat sheet_row) w :
  NoDup (b.*1) → w ∈ b → foldl (fun m w => <[w.1 := w.2]> m) m b !! w.1 = Some w.2.
Proof.
  revert m; induction b as [|w' b IH]; intros m Hnd Hin; simpl.
  - by apply elem_of_nil in Hin.
  - rewrite fmap_cons in Hnd. apply NoDup_cons in Hnd as [Hw' Hnd].
    apply elem_of_cons in Hin as [->|Hin].
    + rewrite writes_lookup_other by done. by rewrite lookup_insert_eq.
    + by apply IH.
Qed.

Lemma export_section_writes_kept st s :
  writes_kept st → writes_kept (export_section st s)
  ∧ curr_row st ≤ curr_row (export_section st s).
Proof.
  intros Hst. destruct (export_section_writes st s) as [Hws Hcur].
  set (kept := first_occurrences (elements (seen_rows st)) (order_no s) (data_rows s)) in *.
  cbv zeta in Hws, Hcur.
  set (new := (curr_row st, InfoRow (date s) (info s) (order_no s))
              :: imap (fun j row => (curr_row st + 1 + j, ItemRow (item_cells j row))) kept)
    in *.
  assert (curr_row st ≤ curr_row (export_section st s)) as Hle.
  { rewrite Hcur. destruct kept; lia. }
  split; [|done].
  assert (new.*1 = seq (curr_row st) (S (length kept))) as Hrows.
  { unfold new. rewrite fmap_cons. simpl. f_equal.
    rewrite <-(imap_row_numbers (fun j row => ItemRow (item_cells j row)) kept).
    f_equal. apply imap_ext. intros j x _. simpl. f_equal. lia. }
  unfold writes_kept. rewrite Hws. apply Forall_app. split.
  - eapply Forall_impl; [exact Hst|]. intros w [Hw1 Hw2]. split; [lia|].
    destruct (w.2) eqn:Ew; [|done|].
    + destruct Hw2 as [Hlt Hlook]. split; [lia|].
      rewrite sheet_of_app, writes_lookup_other; [done|].
      rewrite Hrows. intros Hin%elem_of_seq. lia.
    + destruct Hw2 as [Hlt Hlook]. split; [lia|].
      rewrite sheet_of_app, writes_lookup_other; [done|].
      rewrite Hrows. intros Hin%elem_of_seq. lia.
  - apply Forall_forall. intros w Hin.
    assert (w.1 ∈ seq (curr_row st) (S (length kept))) as Hrow.
    { rewrite <-Hrows. apply list_elem_of_fmap. by exists w. }
    apply elem_of_seq in Hrow.
    assert (sheet_of (ws st ++ new) !! w.1 = Some w.2) as Hlook.
    { rewrite sheet_of_app. apply writes_lookup_written; [|done].
      rewrite Hrows. apply NoDup_seq. }
    unfold new in Hin. apply elem_of_cons in Hin as [->|Hin].
    + cbn [fst snd]. split; [exact Hle|done].
    + apply elem_of_lookup_imap in Hin as (j & r & -> & Hj).
      apply lookup_lt_Some in Hj. cbn [fst snd] in *.
      rewrite Hcur. destruct kept as [|r0 kept0]; [simpl in Hj; lia|].
      split; [lia|]. split; [lia|done].
Qed.

Lemma export_sections_writes_kept secs st :
  writes_kept st →
  writes_kept (foldl export_section st secs)
  ∧ curr_row st ≤ curr_row (foldl export_section st secs).
Proof.
  revert st; induction secs as [|s secs IH]; intros st Hst; simpl; [done|].
  destruct (export_section_writes_kept st s Hst) as [H1 H2].
  destruct (IH _ H1) as [H3 H4]. split; [done|lia].
Qed.

(** [run] exports, in order, the sections of the files it reads. *)
Lemma run_files_fold pd abort files idx st :
  run_files pd abort idx files st
  = foldl export_section st (sections_read pd abort idx files).
Proof.
  revert idx st; induction files as [|fpath files IH]; intros idx st; simpl; [done|].
  destruct (abort idx); [done|]. by rewrite foldl_app, IH.
Qed.

Lemma initial_writes_kept :
  writes_kept {| seen_rows := ∅; ws := [(1, TitleRow standard_columns)]; curr_row := 2 |}.
Proof.
  unfold writes_kept. apply Forall_singleton. simpl. split; [lia|]. split; [lia|].
  unfold sheet_of. simpl. by rewrite lookup_insert_eq.
Qed.

(** X12. No item row of a batch is lost on the worksheet: every item row
    that [run] writes, and the title row, is still on the row it was
    written to when the batch ends. Only information rows are overwritten
    (those of sections whose rows were all dropped). *)
Theorem item_rows_stay_on_sheet (pd : Pandas) (abort : nat → bool) (files : list str) :
  let st := run pd abort files in
  Forall (fun w =>
    match w.2 with
    | InfoRow _ _ _ => True
    | _ => sheet_of (ws st) !! w.1 = Some w.2
    end) (ws st).
Proof.
  intros st. subst st. unfold run. rewrite run_files_fold.
  destruct (export_sections_writes_kept (sections_read pd abort 0 files) _
              initial_writes_kept) as [Hkept _].
  eapply Forall_impl; [exact Hkept|]. intros w [_ Hw].
  destruct (w.2); [by destruct Hw|done|by destruct Hw].
Qed.

Lemma parse_frame_has_records (df : DataFrame) : Forall has_records (parse_frame df).
Proof.
  unfold parse_frame. destruct (df_empty df); [done|].
  apply emit_section_has_records, scan_rows_sections. simpl. done.
Qed.

Lemma sections_read_has_records pd abort idx files :
  Forall has_records (sections_read pd abort idx files).
Proof.
  revert idx; induction files as [|fpath files IH]; intros idx; simpl; [done|].
  destruct (abort idx); [done|]. apply Forall_app. split; [|done].
  apply parse_frame_has_records.
Qed.

(** X13. [run] saves a workbook exactly when one of the files it reads
    yields a section: the first section read always has an item written,
    and when no section is read [curr_row] stays at 2 and nothing is
    saved. *)
Theorem workbook_saved_iff_section_read (pd : Pandas) (abort : nat → bool)
    (files : list str) :
  saves_workbook (run pd abort files) = true ↔ sections_read pd abort 0 files ≠ [].
Proof.
  unfold saves_workbook, run. rewrite run_files_fold.
  pose proof (sections_read_has_records pd abort 0 files) as Hrec.
  destruct (sections_read pd abort 0 files) as [|s secs].
  - simpl. split; [done|]. by intros [].
  - split; [done|]. intros _. apply Nat.ltb_lt. cbn [foldl].
    apply Forall_cons in Hrec as [Hs _].
    set (st0 := {| seen_rows := ∅; ws := [(1, TitleRow standard_columns)];
                   curr_row := 2 |}).
    destruct (export_section_writes_kept st0 s initial_writes_kept) as [Hk _].
    destruct (export_sections_writes_kept secs _ Hk) as [_ Hle].
    destruct (export_section_writes st0 s) as [_ Hcur]. cbv zeta in Hcur.
    assert (first_occurrences (elements (seen_rows st0)) (order_no s) (data_rows s) ≠ [])
      as Hkept.
    { unfold has_records in Hs. destruct (data_rows s) as [|r rs]; [done|].
      rewrite first_occurrences_cons. simpl. rewrite elements_empty.
      rewrite bool_decide_false by apply not_elem_of_nil. done. }
    destruct (first_occurrences _ _ _); [done|]. simpl in Hcur, Hle. lia.
Qed.


Lemma first_occurrences_nil earlier id rows :
  (∀ row, row ∈ rows → sig_of id row ∈ earlier) → first_occurrences earlier id rows = [].
Proof.
  revert earlier; induction rows as [|row rows IH]; intros earlier H; [done|].
  rewrite first_occurrences_cons, bool_decide_true by apply H, list_elem_of_here.
  simpl. apply IH. intros r Hr. apply elem_of_app. left.
  by apply H, list_elem_of_further.
Qed.

Lemma sections_read_never pd idx files :
  sections_read pd (fun _ => false) idx files = files ≫= parse_file_to_sections pd.
Proof.
  revert idx; induction files as [|f files IH]; intros idx; simpl; [done|].
  by rewrite IH.
Qed.

(** Sections whose rows were all seen leave nothing but their information
    rows, each written on the row where the next one goes. *)
Lemma export_repeats secs st :
  (∀ s row, s ∈ secs → row ∈ data_rows s → sig_of (order_no s) row ∈ seen_rows st) →
  ∃ extra,
    ws (foldl export_section st secs) = ws st ++ extra
    ∧ length extra = length secs
    ∧ Forall (fun w => w.1 = curr_row st ∧ ∃ d i o, w.2 = InfoRow d i o) extra
    ∧ curr_row (foldl export_section st secs) = curr_row st.
Proof.
  revert st; induction secs as [|s secs IH]; intros st H; simpl.
  - exists []. by rewrite app_nil_r.
  - destruct (export_section_writes st s) as [Hws Hcur]. cbv zeta in Hws, Hcur.
    assert (first_occurrences (elements (seen_rows st)) (order_no s) (data_rows s) = [])
      as Hnone.
    { apply first_occurrences_nil. intros row Hr. apply elem_of_elements.
      apply (H s row); [apply list_elem_of_here|done]. }
    rewrite Hnone in Hws, Hcur. cbn [imap] in Hws.
    destruct (IH (export_section st s)) as (extra & H1 & H2 & H3 & H4).
    { intros s' row Hs' Hr.
      destruct (export_section_spec st s (elements (seen_rows st))) as [Hseen _].
      { intros y. by rewrite elem_of_elements. }
      apply Hseen, elem_of_app. left. apply elem_of_elements.
      apply (H s' row); [by apply list_elem_of_further|done]. }
    exists ((curr_row st, InfoRow (date s) (info s) (order_no s)) :: extra).
    rewrite H1, Hws, <-app_assoc. split; [done|]. split; [simpl; by rewrite H2|].
    split; [|by rewrite H4].
    apply Forall_cons. split; [split; [done|by eexists _, _, _]|].
    by rewrite Hcur in H3.
Qed.

(** X14. When every row read from the files at the end of a batch repeats
    the signature of a row read from the files before them, these files
    add no item row and [curr_row] ends where it was without them: the same
    workbook is saved, but for one information row per section of these
    files, each written on the first free row, where the last of them
    stays. *)
Theorem repeated_content_adds_no_rows (pd : Pandas) (files1 files2 : list str) :
  let never := fun _ : nat => false in
  (∀ s row, s ∈ sections_read pd never 0 files2 → row ∈ data_rows s →
     ∃ s' row', s' ∈ sections_read pd never 0 files1 ∧ row' ∈ data_rows s'
                ∧ sig_of (order_no s') row' = sig_of (order_no s) row) →
  let st1 := run pd never files1 in
  let st2 := run pd never (files1 ++ files2) in
  items_written st2 = items_written st1
  ∧ curr_row st2 = curr_row st1
  ∧ ∃ extra,
      ws st2 = ws st1 ++ extra
      ∧ length extra = length (sections_read pd never 0 files2)
      ∧ Forall (fun w => w.1 = curr_row st1 ∧ ∃ d i o, w.2 = InfoRow d i o) extra.
Proof.
  intros never Hrep st1 st2. subst st1 st2. unfold run.
  rewrite !run_files_fold. unfold never in *. rewrite !sections_read_never in *.
  rewrite bind_app, foldl_app.
  set (st0 := {| seen_rows := ∅; ws := [(1, TitleRow standard_columns)]; curr_row := 2 |}).
  set (secs1 := files1 ≫= parse_file_to_sections pd) in *.
  set (secs2 := files2 ≫= parse_file_to_sections pd) in *.
  destruct (export_sections_spec secs1 st0 []) as [Hseen _].
  { intros x. simpl. by rewrite elem_of_empty, elem_of_nil. }
  destruct (export_repeats secs2 (foldl export_section st0 secs1))
    as (extra & H1 & H2 & H3 & H4).
  { intros s row Hs Hr. destruct (Hrep s row Hs Hr) as (s' & row' & Hs' & Hr' & <-).
    apply Hseen. simpl. apply list_elem_of_bind. exists s'. split; [|done].
    apply list_elem_of_fmap. by exists row'. }
  split; [|split; [done|by exists extra]].
  unfold items_written. rewrite H1, omap_app.
  assert (omap (fun w : nat * sheet_row =>
                  match w.2 with ItemRow cs => Some cs | _ => None end) extra = []) as ->.
  { clear H1 H2. induction extra as [|w extra IH]; [done|].
    apply Forall_cons in H3 as [[_ (d & i & o & Hw)] H3]. simpl. rewrite Hw. by apply IH. }
  by rewrite app_nil_r.
Qed.


End SheetFacts.

(** *** The outer border *)

Section BorderFacts.
Context {Side : Type} (thick thin : Side).

Lemma inserts_lookup {K V} `{Countable K} (f : K → V) (keys : list K)
    (m : gmap K V) (k : K) :
  foldl (fun m' k' => <[k' := f k']> m') m keys !! k
  = if bool_decide (k ∈ keys) then Some (f k) else m !! k.
Proof.
  revert m; induction keys as [|k' keys IH]; intros m; simpl; [done|].
  rewrite IH. destruct (decide (k = k')) as [->|Hne].
  - rewrite (bool_decide_true (k' ∈ k' :: keys)) by apply list_elem_of_here.
    case_bool_decide; [done|]. by rewrite lookup_insert_eq.
  - rewrite lookup_insert_ne by done.
    case_bool_decide as Hin.
    + by rewrite bool_decide_true by by apply list_elem_of_further.
    + rewrite bool_decide_false; [done|].
      intros [?|?]%elem_of_cons; done.
Qed.

(** The two loops visit the cells row by row. *)
Lemma apply_outer_border_cells (borders : gmap (nat * nat) (Border (Side := Side)))
    (start_r end_r : nat) :
  apply_outer_border thick thin borders start_r end_r
  = foldl (fun m k => <[k := outer_border_at thick thin start_r end_r k.1 k.2]> m) borders
      (seq start_r (end_r + 1 - start_r) ≫= fun r => (fun c => (r, c)) <$> seq 1 8).
Proof.
  unfold apply_outer_border. generalize (seq start_r (end_r + 1 - start_r)).
  intros rows. revert borders. induction rows as [|r rows IH]; intros borders; [done|].
  cbn [foldl]. by rewrite bind_cons, foldl_app, <-IH.
Qed.

(** X15. [apply_outer_border] gives each cell of the columns 1 to 8 in the
    rows [start_r] to [end_r] a border that is thick on the left in column
    1, on the right in column 8, on top in the first row and at the bottom
    in the last row, and thin on its other sides; every other cell keeps
    its border, and nothing changes when [end_r < start_r]. *)
Theorem outer_border_frames_block (borders : gmap (nat * nat) (Border (Side := Side)))
    (start_r end_r r c : nat) :
  apply_outer_border thick thin borders start_r end_r !! (r, c)
  = if bool_decide (start_r ≤ r ≤ end_r ∧ 1 ≤ c ≤ 8)
    then Some {| left := if bool_decide (c = 1) then thick else thin;
                 right := if bool_decide (c = 8) then thick else thin;
                 top := if bool_decide (r = start_r) then thick else thin;
                 bottom := if bool_decide (r = end_r) then thick else thin |}
    else borders !! (r, c).
Proof.
  rewrite apply_outer_border_cells, inserts_lookup.
  assert ((r, c) ∈ (seq start_r (end_r + 1 - start_r) ≫= fun r => (fun c => (r, c)) <$> seq 1 8)
          ↔ start_r ≤ r ≤ end_r ∧ 1 ≤ c ≤ 8) as Hin.
  { rewrite list_elem_of_bind. split.
    - intros (r' & Hc & Hr). apply list_elem_of_fmap in Hc as (c' & [= -> ->] & Hc).
      apply elem_of_seq in Hc, Hr. lia.
    - intros [Hr Hc]. exists r. split.
      + apply list_elem_of_fmap. exists c. split; [done|]. apply elem_of_seq. lia.
      + apply elem_of_seq. lia. }
  destruct (decide (start_r ≤ r ≤ end_r ∧ 1 ≤ c ≤ 8)) as [Hyes|Hno].
  - rewrite !bool_decide_true by (done || by apply Hin).
    unfold outer_border_at. simpl. do 2 f_equal.
    + destruct (Nat.eqb_spec c 1); [by rewrite bool_decide_true|by rewrite bool_decide_false].
    + destruct (Nat.eqb_spec c 8); [by rewrite bool_decide_true|by rewrite bool_decide_false].
    + destruct (Nat.eqb_spec r start_r);
        [by rewrite bool_decide_true|by rewrite bool_decide_false].
    + destruct (Nat.eqb_spec r end_r);
        [by rewrite bool_decide_true|by rewrite bool_decide_false].
  - rewrite !bool_decide_false by (done || by rewrite Hin). done.
Qed.

End BorderFacts.

(** *** The list of files of the window *)

Section WindowFacts.
Import MainWindow.

Lemma remove_first_absent (x : str) (l : list str) : x ∉ l → remove_first x l = l.
Proof.
  induction l as [|y l IH]; simpl; [done|]. intros [Hne Hl]%not_elem_of_cons.
  rewrite bool_decide_false by done. by rewrite IH.
Qed.

Lemma remove_first_NoDup (x : str) (l : list str) :
  NoDup l → remove_first x l = List.filter (fun y => negb (bool_decide (y = x))) l.
Proof.
  induction l as [|y l IH]; simpl; [done|]. intros [Hy Hnd]%NoDup_cons.
  case_bool_decide as Heq; simpl.
  - subst y. rewrite <-(remove_first_absent x l) at 1 by done. by apply IH.
  - by rewrite IH.
Qed.

Lemma add_files_files (w : Window) (paths : list str) :
  (NoDup (files w) → NoDup (files (add_files w paths)))
  ∧ (file_list w = files w → file_list (add_files w paths) = files (add_files w paths))
  ∧ files w `prefix_of` files (add_files w paths)
  ∧ ∀ p, p ∈ files (add_files w paths) ↔ p ∈ files w ∨ p ∈ paths.
Proof.
  unfold add_files. revert w; induction paths as [|q paths IH]; intros w; simpl.
  - repeat split; try done. + intros ?; by left. + intros [?|?%elem_of_nil]; done.
  - destruct (IH (add_file w q)) as (H1 & H2 & H3 & H4).
    unfold add_file in *. case_bool_decide as Hq; simpl in *.
    + repeat split; try done.
      * intros Hp. apply H4 in Hp as [?|?]; [by left|right; by apply list_elem_of_further].
      * intros [Hp|Hp]; apply H4; [by left|].
        apply elem_of_cons in Hp as [->|Hp]; [by left|by right].
    + split; [|split; [|split]].
      * intros Hnd. apply H1. apply NoDup_app. split; [done|]. split.
        -- intros x Hx ->%list_elem_of_singleton. done.
        -- apply NoDup_singleton.
      * intros Heq. apply H2. by rewrite Heq.
      * etrans; [|exact H3]. by apply prefix_app_r.
      * intros p. rewrite H4, elem_of_app, list_elem_of_singleton, elem_of_cons. tauto.
Qed.

(** The start and every action keep the two lists equal and free of
    repetitions. *)
Lemma file_list_in_step_aux (actions : list action) :
  NoDup (files (foldl perform init actions))
  ∧ file_list (foldl perform init actions) = files (foldl perform init actions).
Proof.
  assert (∀ w a, NoDup (files w) ∧ file_list w = files w →
                 NoDup (files (perform w a)) ∧ file_list (perform w a) = files (perform w a))
    as Hstep.
  { intros w [paths|path|] [Hnd Heq]; simpl.
    - destruct (add_files_files w paths) as (H1 & H2 & _). split; [by apply H1|by apply H2].
    - unfold remove_file. simpl. rewrite Heq. case_bool_decide as Hin.
      + split; [|done]. rewrite remove_first_NoDup by done.
        apply NoDup_ListNoDup, List.NoDup_filter. by apply NoDup_ListNoDup.
      + split; [done|]. by apply remove_first_absent.
    - split; [apply NoDup_nil_2|done]. }
  assert (∀ w, NoDup (files w) ∧ file_list w = files w →
               NoDup (files (foldl perform w actions))
               ∧ file_list (foldl perform w actions) = files (foldl perform w actions)) as Hall.
  { induction actions as [|a actions IH]; intros w Hw; simpl; [done|].
    by apply IH, Hstep. }
  apply Hall. split; [apply NoDup_nil_2|done].
Qed.

(** X16. Whatever the user does (adding the paths of a dialog, removing a
    path, clearing), the list the window shows and the list [self.files]
    that a merge processes hold the same paths in the same order, and no
    path twice. *)
Theorem file_list_in_step (actions : list action) :
  let w := foldl perform init actions in
  NoDup (files w) ∧ file_list w = files w.
Proof. intros w. apply file_list_in_step_aux. Qed.

(** X17. In a window reached from the start, removing a path takes exactly
    that path out of the list and leaves the others in their order; adding
    paths keeps the files already listed in their places and appends the
    new ones, so that the list then holds the old paths and the added ones
    and nothing else. *)
Theorem add_and_remove_files (actions : list action) :
  let w := foldl perform init actions in
  (∀ path,
     (path ∉ files (remove_file w path))
     ∧ files (remove_file w path)
       = List.filter (fun y => negb (bool_decide (y = path))) (files w))
  ∧ (∀ paths,
       files w `prefix_of` files (add_files w paths)
       ∧ ∀ p, p ∈ files (add_files w paths) ↔ p ∈ files w ∨ p ∈ paths).
Proof.
  intros w. pose proof (file_list_in_step_aux actions) as [Hnd _]. fold w in Hnd.
  split.
  - intros path.
    assert (files (remove_file w path)
            = List.filter (fun y => negb (bool_decide (y = path))) (files w)) as Heq.
    { unfold remove_file. simpl. case_bool_decide as Hin.
      - by apply remove_first_NoDup.
      - rewrite <-remove_first_NoDup by done. by rewrite remove_first_absent. }
    split; [|done]. rewrite Heq. intros Hin%list_elem_of_In.
    apply filter_In in Hin as [_ Hin]. by rewrite bool_decide_true in Hin.
  - intros paths. destruct (add_files_files w paths) as (_ & _ & H3 & H4). done.
Qed.

End WindowFacts.

(** *** The matcher against the patterns *)

Section PatternFacts.

Lemma run_length_bound p limit s : Re.run_length p limit s ≤ limit.
Proof.
  revert s; induction limit as [|limit IH]; intros [|c s]; simpl; try lia.
  destruct (p c); [specialize (IH s)|]; lia.
Qed.

Lemma run_length_accepts p limit s :
  Forall (fun c => p c = true) (take (Re.run_length p limit s) s).
Proof.
  revert s; induction limit as [|limit IH]; intros [|c s]; simpl; try done.
  destruct (p c) eqn:E; simpl; [|done]. by apply Forall_cons.
Qed.

Lemma run_length_reaches p limit (run tail : str) :
  length run ≤ limit → Forall (fun c => p c = true) run →
  length run ≤ Re.run_length p limit (run ++ tail).
Proof.
  revert limit; induction run as [|c run IH]; intros limit Hl Hp; simpl; [lia|].
  destruct limit as [|limit]; simpl in *; [lia|].
  apply Forall_cons in Hp as [Hc Hp]. rewrite Hc.
  assert (length run ≤ limit) as Hl' by lia.
  pose proof (IH limit Hl' Hp). lia.
Qed.

Lemma greedy_finds rest s lo j k :
  lo ≤ k → k ≤ j → is_Some (rest (drop k s)) → is_Some (Re.greedy rest s lo j).
Proof.
  intros Hlo. induction j as [|j IH]; intros Hk Hrest; simpl.
  - assert (k = 0) as -> by lia. destruct (Nat.ltb_spec 0 lo); [lia|].
    destruct Hrest as [m ->]. done.
  - destruct (Nat.ltb_spec (S j) lo); [lia|].
    destruct (rest (drop (S j) s)) as [m|] eqn:E; [done|].
    apply IH; [|done]. destruct (decide (k = S j)) as [->|]; [|lia].
    rewrite E in Hrest. by destruct Hrest.
Qed.

(** What [match_here] accepts matches the pattern. *)
Lemma match_here_sound pat s n :
  Re.match_here pat s = Some n → matches pat (take n s).
Proof.
  revert s n; induction pat as [|a pat IH]; intros s n; simpl.
  - intros [= <-]. rewrite take_0. constructor.
  - intros (k & m & Hlo & Hk & Hm & ->)%greedy_some.
    rewrite <-take_take_drop.
    pose proof (run_length_le (Re.accepts a) (Re.rmax a) s) as Hlen.
    pose proof (run_length_bound (Re.accepts a) (Re.rmax a) s) as Hmax.
    constructor.
    + rewrite length_take. unfold char in *. lia.
    + rewrite length_take. unfold char in *. lia.
    + replace (take k s)
        with (take k (take (Re.run_length (Re.accepts a) (Re.rmax a) s) s))
        by (rewrite take_take; f_equal; lia).
      apply Forall_take, run_length_accepts.
    + by apply IH.
Qed.

(** A text that starts with a match of the pattern is accepted. *)
Lemma match_here_complete pat t tail :
  matches pat t → is_Some (Re.match_here pat (t ++ tail)).
Proof.
  intros Hm. revert tail. induction Hm as [|a pat run rest Hlo Hhi Hacc Hm IH];
    intros tail; simpl; [done|].
  apply (greedy_finds _ _ _ _ (length run)); [done| |].
  - rewrite <-app_assoc. by apply run_length_reaches.
  - rewrite <-app_assoc, drop_app_length. apply IH.
Qed.

Lemma matches_length pat t :
  matches pat t →
  min_length pat ≤ length t ∧ length t ≤ foldr (fun a n => Re.rmax a + n) 0 pat.
Proof.
  induction 1 as [|a pat run rest Hlo Hhi Hacc Hm IH]; simpl; [lia|].
  rewrite length_app. unfold char, str in *. lia.
Qed.

Lemma search_sound pat s t :
  Re.search pat s = Some t → matches pat t ∧ ∃ pre post, s = pre ++ t ++ post.
Proof.
  intros H. split; [|by eapply search_substring].
  induction s as [|c s IH]; simpl in H.
  - destruct (Re.match_here pat []) as [n|] eqn:E; [|done].
    injection H as <-. by apply match_here_sound.
  - destruct (Re.match_here pat (c :: s)) as [n|] eqn:E.
    + injection H as <-. by apply match_here_sound.
    + by apply IH.
Qed.

Lemma search_complete pat pre t post :
  matches pat t → is_Some (Re.search pat (pre ++ t ++ post)).
Proof.
  intros Hm. induction pre as [|c pre IH]; simpl.
  - destruct (match_here_complete pat t post Hm) as [n Hn].
    destruct (t ++ post); simpl; by rewrite Hn.
  - destruct (Re.match_here pat (c :: pre ++ t ++ post)); [done|]. exact IH.
Qed.

End PatternFacts.

Section TokenFacts.
Context `{B : Builtins}.

(** X18. The order-number search finds a token exactly when the text has
    a piece made of the letters X, I, D, P in either case, a hyphen, at most
    one more letter and ten to twelve digits; the token it returns is such
    a piece of the text, of 15 to 18 characters. The date search likewise
    returns a piece of 8 to 10 characters: four digits, a hyphen or slash,
    one or two digits, a hyphen or slash, one or two digits. *)
Theorem searches_find_matching_pieces (s : str) :
  (is_Some (Re.search order_no_pattern s)
   ↔ ∃ pre tok post, s = pre ++ tok ++ post ∧ matches order_no_pattern tok)
  ∧ (∀ tok, Re.search order_no_pattern s = Some tok →
            matches order_no_pattern tok ∧ 15 ≤ length tok ≤ 18
            ∧ ∃ pre post, s = pre ++ tok ++ post)
  ∧ (is_Some (Re.search date_pattern s)
     ↔ ∃ pre day post, s = pre ++ day ++ post ∧ matches date_pattern day)
  ∧ (∀ day, Re.search date_pattern s = Some day →
            matches date_pattern day ∧ 8 ≤ length day ≤ 10
            ∧ ∃ pre post, s = pre ++ day ++ post).
Proof.
  assert (∀ pat, is_Some (Re.search pat s)
                 ↔ ∃ pre t post, s = pre ++ t ++ post ∧ matches pat t) as Hiff.
  { intros pat. split.
    - intros [t Ht]. destruct (search_sound pat s t Ht) as [Hm (pre & post & ->)].
      by exists pre, t, post.
    - intros (pre & t & post & -> & Hm). by apply search_complete. }
  split; [apply Hiff|]. split; [|split; [apply Hiff|]].
  - intros tok Htok. destruct (search_sound _ _ _ Htok) as [Hm Hsub].
    split; [done|]. split; [|done]. apply matches_length in Hm. simpl in Hm. lia.
  - intros day Hday. destruct (search_sound _ _ _ Hday) as [Hm Hsub].
    split; [done|]. split; [|done]. apply matches_length in Hm. simpl in Hm. lia.
Qed.

(** X19. A frame none of whose rows holds an order number gives at most
    one section: the implicit one, under [global_id] and without a date,
    with the records of all the rows that were projected. *)
Theorem no_token_one_section (df : DataFrame) :
  (∀ row, row ∈ cells df →
          Re.search order_no_pattern (join (u " ") (stripped_row df row)) = None) →
  let global_id := find_global_id (raw_row_str df <$> cells df) in
  parse_frame df = []
  ∨ ∃ s, parse_frame df = [s] ∧ order_no s = global_id ∧ date s = [].
Proof.
  intros Hrows global_id. unfold parse_frame. destruct (df_empty df); [by left|].
  fold global_id.
  match goal with |- context [foldl (scan_row ?g) ?st0 ?rows] =>
    pose proof (scan_rows_invariant
      (fun st => sections st = []
                 ∧ ∀ cur, current_section st = Some cur →
                          order_no cur = global_id ∧ date cur = [])
      g rows st0) as Hinv end.
  destruct Hinv as [Hs Hc].
  - intros st row Hin [Hs Hc].
    apply list_elem_of_fmap in Hin as (row0 & -> & Hin0).
    unfold scan_row. destruct (is_header_row _).
    { split; simpl; [done|]. intros cur Heq.
      destruct (current_section st) as [c0|]; [|done].
      injection Heq as <-. exact (Hc c0 eq_refl). }
    unfold detect_order. rewrite (Hrows _ Hin0).
    unfold collect_row. destruct (scan_header_map st) as [h|]; [|done].
    destruct (truthy_map _); [|done]. destruct (_ && _); [|done].
    split; simpl; [done|]. intros cur [= <-].
    destruct (current_section st) as [c0|]; simpl; [exact (Hc c0 eq_refl)|done].
  - split; simpl; [done|]. by intros cur [=].
  - rewrite Hs. unfold emit_section.
    destruct (current_section _) as [cur|]; [|by left].
    case_bool_decide; [by left|]. right. exists cur. split; [done|]. by apply Hc.
Qed.

End TokenFacts.

(* ===================================================================== *)
(** ** The program on the concrete sheets *)
(* ===================================================================== *)

Module Runs.

Import Sheets.
#[local] Existing Instance CPython.builtins.

(** C1, counterexample. The second row is a header row and carries the
    token XIDP-0000000002, which is not the active order number; the scan
    keeps the section XIDP-0000000001 active through it and files the
    item under it: no section of the result carries the token. *)
Lemma header_row_token_not_searched :
  is_header_row (join (u " ") (row_of header_with_token 1)) = true
  ∧ Re.search order_no_pattern (join (u " ") (row_of header_with_token 1))
    = Some (u "XIDP-0000000002")
  ∧ order_no <$> current_section (state_after header_with_token 1)
    = Some (u "XIDP-0000000001")
  ∧ order_no <$> current_section (state_after header_with_token 2)
    = Some (u "XIDP-0000000001")
  ∧ (fun s => (order_no s, length (data_rows s))) <$> parse_frame header_with_token
    = [(u "XIDP-0000000001", 1)].
Proof. vm_compute. repeat split. Qed.

(** C2, counterexample. With the tokens ...01 and ...02 in two header
    rows before the first item, the implicit section takes ...01, the
    first token of the file and not the most recent one; with no token
    before the item and one after it, the implicit section takes the
    later token and not the sentinel. *)
Lemma implicit_section_takes_first_token :
  order_no <$> current_section (state_after tokens_in_headers 2) = None
  ∧ order_no <$> parse_frame tokens_in_headers = [u "XIDP-0000000001"]
  ∧ omap (Re.search order_no_pattern)
      (raw_row_str token_after_item <$> take 2 (cells token_after_item)) = []
  ∧ order_no <$> current_section (state_after token_after_item 2)
    = Some (u "XIDP-1234567890")
  ∧ order_no <$> parse_frame token_after_item = [u "XIDP-1234567890"].
Proof. vm_compute. repeat split. Qed.

(** C3, counterexample. In the header row 品名, 数量, Unit Price the third
    column is assigned to two fields, 单位 (by [unit]) and 单价 (by
    [price]). *)
Lemma column_claimed_twice :
  let row := [u "品名"; u "数量"; u "Unit Price"] in
  is_header_row (join (u " ") row) = true
  ∧ create_header_map row !! u "单位" = Some 2
  ∧ create_header_map row !! u "单价" = Some 2.
Proof. vm_compute. repeat split. Qed.

(** C7, counterexample. Every candidate encoding fails on the path, and
    the loader returns the frame that [read_excel] reads, which yields two
    sections. *)
Lemma csv_failure_falls_back_to_excel :
  read_csv_any workbook_named_csv (u "orders.csv") csv_encodings = None
  ∧ read_excel_smart workbook_named_csv (u "orders.csv") = two_spellings
  ∧ df_empty (read_excel_smart workbook_named_csv (u "orders.csv")) = false
  ∧ length (parse_file_to_sections workbook_named_csv (u "orders.csv")) = 2.
Proof. vm_compute. repeat split. Qed.

(** C10. The pattern finds [xidp-1234567890] as it is written; the scan
    of a sheet that holds XIDP-1234567890 and later xidp-1234567890 closes
    the section of the first spelling at the second and opens a new one,
    and the two order numbers are different strings that agree once
    lower-cased. *)
Theorem spelling_of_order_no_splits_sections :
  Re.search order_no_pattern (u "no. xidp-1234567890") = Some (u "xidp-1234567890")
  ∧ order_no <$> current_section (state_after two_spellings 3)
    = Some (u "XIDP-1234567890")
  ∧ Re.search order_no_pattern (join (u " ") (row_of two_spellings 3))
    = Some (u "xidp-1234567890")
  ∧ order_no <$> current_section (state_after two_spellings 4)
    = Some (u "xidp-1234567890")
  ∧ (fun s => (order_no s, length (data_rows s))) <$> parse_frame two_spellings
    = [(u "XIDP-1234567890", 1); (u "xidp-1234567890", 1)]
  ∧ u "XIDP-1234567890" ≠ u "xidp-1234567890"
  ∧ lower (u "XIDP-1234567890") = lower (u "xidp-1234567890").
Proof. vm_compute. repeat split. discriminate. Qed.

(** C1, witness. On the sheet [header_with_token] the header row leaves
    the active order number as it is, and the order row before it, which
    is not a header row, opens the section of its token. *)
Lemma order_search_witness :
  let g := u "XIDP-0000000001" in
  (is_header_row (join (u " ") (row_of header_with_token 1)) = true
   ∧ order_no <$> current_section
                    (scan_row g (state_after header_with_token 1)
                       (row_of header_with_token 1))
     = order_no <$> current_section (state_after header_with_token 1))
  ∧ (is_header_row (join (u " ") (row_of header_with_token 0)) = false
     ∧ order_no <$> current_section
                      (scan_row g initial_state (row_of header_with_token 0))
       = Some (u "XIDP-0000000001")).
Proof.
  intros g.
  assert (is_header_row (join (u " ") (row_of header_with_token 1)) = true) as H1
    by (vm_compute; reflexivity).
  assert (is_header_row (join (u " ") (row_of header_with_token 0)) = false) as H0
    by (vm_compute; reflexivity).
  split; (split; [assumption|]).
  - exact (proj1 (proj2 (proj2
             (proj1 (order_search_skips_header_rows g
                       (state_after header_with_token 1)
                       (row_of header_with_token 1)) H1)))).
  - refine (proj1 (proj2 (order_search_skips_header_rows g initial_state
                            (row_of header_with_token 0)) H0 _ _ _)).
    + vm_compute; reflexivity.
    + intros cur Hcur. discriminate Hcur.
Defined.

(** C2, witness. The item of [token_after_item], read after the header
    row, opens the implicit section under [global_id]. *)
Lemma implicit_section_witness :
  let df := token_after_item in
  let g := find_global_id (raw_row_str df <$> cells df) in
  let h := create_header_map (row_of df 0) in
  let item_data := map_row_to_std (row_of df 1) h in
  g = u "XIDP-1234567890"
  ∧ current_section (scan_row g (state_after df 1) (row_of df 1))
    = Some {| order_no := g; date := []; info := inquiry_info item_data;
              header_map := Some h; data_rows := [item_record item_data] |}.
Proof.
  intros df g h item_data. split; [vm_compute; reflexivity|].
  refine (proj2 (proj2 (implicit_section_uses_global_id df))
            (state_after df 1) (row_of df 1) h _ _ _ _ _ _ _).
  - apply (proj1 (fmap_None order_no _)). vm_compute; reflexivity.
  - vm_compute; reflexivity.
  - intros He. apply (f_equal (fun m => m !! u "品名")) in He.
    vm_compute in He. discriminate He.
  - vm_compute; reflexivity.
  - vm_compute; reflexivity.
  - vm_compute. discriminate.
  - apply (bool_decide_unpack _). vm_compute. exact I.
Defined.

(** C3, witness. The header row of the specification's scenario: the
    field 单价 gets the fourth column, the first whose text holds one of
    its keywords. *)
Lemma header_map_witness :
  let row := [u "品名"; u "规格"; u "数量"; u "单价"] in
  let kws := [u "单价"; u "price"; u "unit price"; u "报价单价"] in
  create_header_map row !! u "单价"
    = fst <$> list_find (fun val => any_in kws (lower val) = true) row
  ∧ create_header_map row !! u "单价" = Some 3.
Proof.
  intros row kws. split.
  - apply (proj1 (header_map_first_column row)).
    apply (bool_decide_unpack _). vm_compute. exact I.
  - vm_compute; reflexivity.
Defined.

(** C7, witness. A path that no reader can read gives the empty frame and
    no section. *)
Lemma failed_load_witness :
  read_excel_smart unreadable (u "orders.csv") = empty_frame
  ∧ parse_file_to_sections unreadable (u "orders.csv") = [].
Proof.
  refine (proj1 (proj2 (failed_load_yields_no_sections unreadable (u "orders.csv"))) _ _).
  - intros _ enc _. reflexivity.
  - reflexivity.
Defined.

(** C8, witness. The text " 1,234.5 " without the whitespace around it is
    "1,234.5", without its commas "1234.5", and [safe_float] answers the
    float 1234.5. *)
Lemma safe_float_witness :
  without_surrounding_whitespace (u " 1,234.5 ") (u "1,234.5")
  ∧ without_commas (u "1,234.5") (u "1234.5")
  ∧ safe_float (Some (VStr (u " 1,234.5 "))) = CPython.of_decimal false 12345 (-1).
Proof.
  assert (without_surrounding_whitespace (u " 1,234.5 ") (u "1,234.5")) as Hw.
  { exists [32%N], [32%N]. split; [vm_compute; reflexivity|].
    split; [apply Forall_singleton; vm_compute; reflexivity|].
    split; [apply Forall_singleton; vm_compute; reflexivity|].
    split; intros c Hc; vm_compute in Hc; injection Hc as <-; vm_compute; reflexivity. }
  assert (without_commas (u "1,234.5") (u "1234.5")) as Hd.
  { apply without_commas_spec. vm_compute; reflexivity. }
  split; [exact Hw|]. split; [exact Hd|].
  etrans.
  - exact (proj1 (proj2 (proj2 (proj2 (proj2 safe_float_total))
                           (VStr (u " 1,234.5 ")) (u " 1,234.5 ") (or_introl eq_refl))
                    (u "1,234.5") (u "1234.5") Hw Hd)).
  - vm_compute; reflexivity.
Defined.

(** The scenario of the specification: quantity 10, unit price 2.50 and
    the amount 25.00, whatever the sheet says in its amount cell. *)
Example bolts_amount :
  (fun r => py_str <$> [field r (u "数量"); field r (u "单价"); field r (u "金额");
                        field r (u "备注/本体单重")])
    <$> (parse_frame bolts ≫= data_rows)
  = [[u "10"; u "2.5"; u "25.0"; u "无"]]
  ∧ (fun s => (order_no s, date s, info s)) <$> parse_frame bolts
    = [(u "XIDP-A1234567890", u "2024-03-15", u "工单详情")].
Proof. vm_compute. repeat split. Qed.

Example safe_float_samples :
  safe_float (Some (VStr (u " 1,234.5 "))) = CPython.of_decimal false 12345 (-1)
  ∧ safe_float (Some (VStr (u "abc"))) = fzero
  ∧ safe_float (Some (VStr (u "   "))) = fzero
  ∧ safe_float (Some (VStr (u "1, 234"))) = fzero
  ∧ safe_float None = fzero
  ∧ safe_float_try (Some (VStr (u "abc"))) = Raise.
Proof. vm_compute. repeat split. Qed.

(** A batch of two files: the bolt of the second file repeats the
    signature of the first file's bolt at another price and is dropped;
    the nut is written and gets the number 1 in its section. *)
Example repriced_item_dropped :
  List.map (List.map py_str)
    (items_written (run two_files (fun _ => false) [u "a.xlsx"; u "b.xlsx"]))
  = [ [u "1"; u "螺栓"; u "M6x20"; u "个"; u "10"; u "2.5"; u "25.0"; u "无"];
      [u "1"; u "螺母"; u "M6"; u "个"; u "4"; u "0.5"; u "2.0"; []] ].
Proof. vm_compute. repeat split. Qed.

Example unit_samples :
  normalize_unit (u "臺/台") = u "台" ∧ normalize_unit (u "箱") = u "箱".
Proof. vm_compute. repeat split. Qed.


(** X3, witness. The unit kg holds the letter g and none of the four Han
    keys: it is normalised to g. *)
Lemma unit_with_g_witness : normalize_unit (u "kg") = u "g".
Proof. apply unit_with_g_becomes_g; vm_compute; reflexivity. Defined.

(** X4, witness. The sheet [no_titles] has an order row and an item but no
    header row: it gives no section. *)
Lemma no_header_row_witness : parse_frame no_titles = [].
Proof.
  apply no_header_row_no_sections. intros row Hin.
  apply list_elem_of_In in Hin. unfold no_titles, frame in Hin.
  cbn [cells List.map In] in Hin.
  destruct Hin as [<-|[<-|[]]]; vm_compute; reflexivity.
Defined.

(** Lower-casing the ASCII letters keeps a piece that has none in upper
    case. *)
Lemma ascii_lower_keeps_piece (k s : str) :
  fmap CPython.ascii_lower k = k →
  contains k s = true → contains k (fmap CPython.ascii_lower s) = true.
Proof.
  intros Hk. rewrite !contains_spec. intros (pre & post & ->).
  exists (CPython.ascii_lower <$> pre), (CPython.ascii_lower <$> post).
  by rewrite !fmap_app, Hk.
Qed.

(** X8, witness. The header row of the sheet [bolts] gets a column for
    the item name and one for the quantity. *)
Lemma header_row_witness :
  let h := create_header_map (row_of bolts 1) in
  (is_Some (h !! u "品名") ∨ is_Some (h !! u "规格/图号"))
  ∧ (is_Some (h !! u "数量") ∨ is_Some (h !! u "单价"))
  ∧ truthy_map (Some h) = true.
Proof.
  apply header_row_has_header_map.
  - intros k s Hk. apply ascii_lower_keeps_piece.
    apply list_elem_of_In in Hk. unfold NAME_PROBES, QUANTITY_PROBES in Hk.
    cbn [app In] in Hk.
    destruct Hk as [<-|[<-|[<-|[<-|[<-|[]]]]]]; vm_compute; reflexivity.
  - vm_compute; reflexivity.
Defined.

(** X9, witness. A data row as wide as its header row: the unit column is
    projected, normalised, and a field without a column is left out. *)
Lemma projection_witness :
  let header_row := [u "品名"; u "数量"; u "单位"] in
  let data_row := [u "螺栓"; u "3"; u "公斤"] in
  map_row_to_std data_row (create_header_map header_row) !! u "规格/图号" = None
  ∧ 2 < length header_row
  ∧ ∃ val, data_row !! 2 = Some val
           ∧ map_row_to_std data_row (create_header_map header_row) !! u "单位"
             = Some (if bool_decide (u "单位" = u "单位") then normalize_unit val else val).
Proof.
  intros header_row data_row.
  assert (length header_row ≤ length data_row) as Hlen by (simpl; lia).
  split.
  - apply (proj1 (projection_follows_header_map header_row data_row Hlen)).
    vm_compute; reflexivity.
  - apply (proj1 (proj2 (projection_follows_header_map header_row data_row Hlen))).
    vm_compute; reflexivity.
Defined.

(** X19, witness. The sheet [no_order_no] holds no order number: its
    items come in one section at most, the implicit one. *)
Lemma no_token_witness :
  parse_frame no_order_no = []
  ∨ ∃ s, parse_frame no_order_no = [s]
         ∧ order_no s = find_global_id (raw_row_str no_order_no <$> cells no_order_no)
         ∧ date s = [].
Proof.
  apply no_token_one_section. intros row Hin.
  apply list_elem_of_In in Hin. unfold no_order_no, frame in Hin.
  cbn [cells List.map In] in Hin.
  destruct Hin as [<-|[<-|[<-|[]]]]; vm_compute; reflexivity.
Defined.

(** X14, witness. A batch that reads the content of [a.xlsx] a second
    time writes the item rows of the first reading only. *)
Lemma repeated_content_witness :
  items_written (run two_files (fun _ => false) ([u "a.xlsx"] ++ [u "a.xlsx"]))
  = items_written (run two_files (fun _ => false) [u "a.xlsx"]).
Proof.
  apply (repeated_content_adds_no_rows two_files [u "a.xlsx"] [u "a.xlsx"]).
  intros s row Hs Hr. by exists s, row.
Defined.


End Runs.
